(** * mruby-fast-json: a shallow embedding of [src/mrb_fastjson.cpp]

    The gem wraps the simdjson scanning engine for the mruby host.  The
    embedding follows the C++ file function by function and keeps its
    names.  What the file only calls -- the scanning engine, the string
    builder, the host's object model and its number helpers -- is taken
    as an interface ([Platform], [OnDemand]) whose fields are the calls
    the source makes.

    Conventions.
    - A machine integer is a [Z]; [mrb_int], [size_t] and [uintptr_t]
      are 64 bits wide, and where the C++ arithmetic is unsigned the
      wrap-around is written out with [wrap64].
    - A host string is its bytes ([string]); a double is its binary64
      bit pattern ([Z]), since the wrapper only moves doubles around.
    - [simdjson_result A] is the engine's (value, code) pair: [sr_ok] is
      code SUCCESS, [sr_err c] any other code.
    - [mrb_result A] is the outcome of a C function of the gem: it
      returns, leaves through [mrb_raise] (the host exception), or leaves
      through a C++ [simdjson_error] thrown by an implicit
      [simdjson_result] conversion. *)

From Stdlib Require Import ZArith List String Ascii Bool Lia DecimalString DecimalZ.
Import ListNotations.
Open Scope Z_scope.
Set Warnings "-register-all".

(* ===================================================================== *)
(** * Part I.  Definitions                                                *)
(* ===================================================================== *)

(** ** Engine codes and host exceptions *)

(** [simdjson::error_code] without SUCCESS (which is [sr_ok]).  The
    codes named in [raise_simdjson_error] and one more for the [default]
    branch. *)
Inductive error_code : Type :=
| CAPACITY | MEMALLOC | TAPE_ERROR | DEPTH_ERROR | STRING_ERROR
| T_ATOM_ERROR | F_ATOM_ERROR | N_ATOM_ERROR | NUMBER_ERROR | BIGINT_ERROR
| UTF8_ERROR | UNINITIALIZED | EMPTY | UNESCAPED_CHARS | UNCLOSED_STRING
| UNSUPPORTED_ARCHITECTURE | INCORRECT_TYPE | NUMBER_OUT_OF_RANGE
| INDEX_OUT_OF_BOUNDS | NO_SUCH_FIELD | IO_ERROR | INVALID_JSON_POINTER
| INVALID_URI_FRAGMENT | UNEXPECTED_ERROR | PARSER_IN_USE
| OUT_OF_ORDER_ITERATION | INSUFFICIENT_PADDING
| INCOMPLETE_ARRAY_OR_OBJECT | SCALAR_DOCUMENT_AS_VALUE | OUT_OF_BOUNDS
| TRAILING_CONTENT | OUT_OF_CAPACITY
| OTHER_ERROR_CODE.

Inductive simdjson_result (A : Type) : Type :=
| sr_ok (a : A)
| sr_err (c : error_code).
Arguments sr_ok {A} a.
Arguments sr_err {A} c.

(** The exception classes the file raises. *)
Inductive exc_class : Type :=
| E_JSON_UNCLOSED_STRING_ERROR | E_JSON_STRING_ERROR
| E_JSON_UNESCAPED_CHARS_ERROR | E_JSON_TAPE_ERROR | E_JSON_DEPTH_ERROR
| E_JSON_INCOMPLETE_ARRAY_OR_OBJECT_ERROR | E_JSON_TRAILING_CONTENT_ERROR
| E_JSON_CAPACITY_ERROR | E_JSON_OUT_OF_CAPACITY_ERROR
| E_JSON_INSUFFICIENT_PADDING_ERROR | E_JSON_NUMBER_ERROR
| E_JSON_BIGINT_ERROR | E_JSON_NUMBER_OUT_OF_RANGE_ERROR
| E_JSON_T_ATOM_ERROR | E_JSON_F_ATOM_ERROR | E_JSON_N_ATOM_ERROR
| E_JSON_UTF8_ERROR | E_JSON_EMPTY_INPUT_ERROR | E_JSON_UNINITIALIZED_ERROR
| E_JSON_PARSER_IN_USE_ERROR | E_JSON_SCALAR_DOCUMENT_AS_VALUE_ERROR
| E_JSON_NO_SUCH_FIELD_ERROR | E_JSON_OUT_OF_BOUNDS_ERROR
| E_JSON_OUT_OF_ORDER_ITERATION_ERROR | E_JSON_IO_ERROR
| E_JSON_INVALID_JSON_POINTER_ERROR | E_JSON_INVALID_URI_FRAGMENT_ERROR
| E_JSON_UNSUPPORTED_ARCHITECTURE_ERROR | E_JSON_UNEXPECTED_ERROR
| E_JSON_PARSER_ERROR
| E_TYPE_ERROR | E_INDEX_ERROR | E_KEY_ERROR | E_RUNTIME_ERROR
| E_HOST (name : string).   (* any exception raised by host code or by a block *)

(** What leaves through the host's non-local exit. *)
Inductive mrb_exc : Type :=
| Exc (cls : exc_class) (msg : string)   (* mrb_raise(mrb, cls, msg) *)
| NoMemErr.                              (* mrb_exc_raise(mrb, mrb->nomem_err) *)

Inductive mrb_result (A : Type) : Type :=
| Ok (a : A)
| Raise (e : mrb_exc)
| Throw (c : error_code).
Arguments Ok {A} a.
Arguments Raise {A} e.
Arguments Throw {A} c.

Definition bind {A B : Type} (m : mrb_result A) (k : A -> mrb_result B)
  : mrb_result B :=
  match m with
  | Ok a => k a
  | Raise e => Raise e
  | Throw c => Throw c
  end.

Notation "x <- m ;; k" := (bind m (fun x => k))
  (at level 61, m at next level, right associativity).

(** An implicit conversion [simdjson_result<T> -> T]: throws on error. *)
Definition value_or_throw {A : Type} (r : simdjson_result A) : mrb_result A :=
  match r with
  | sr_ok a => Ok a
  | sr_err c => Throw c
  end.

(** ** Host values *)

(** [enum mrb_vtype]: the tags the encoder's switch names... *)
Inductive mrb_vtype : Type :=
| MRB_TT_FALSE | MRB_TT_TRUE | MRB_TT_SYMBOL | MRB_TT_UNDEF | MRB_TT_FLOAT
| MRB_TT_INTEGER | MRB_TT_HASH | MRB_TT_ARRAY | MRB_TT_STRING
| MRB_TT_BIGINT
| MRB_TT_OTHER (t : mrb_object_tt)
(** ... and the remaining ones, which no function of the file tells
    apart. *)
with mrb_object_tt : Type :=
| TT_CPTR | TT_OBJECT | TT_CLASS | TT_MODULE | TT_ICLASS | TT_SCLASS
| TT_PROC | TT_RANGE | TT_EXCEPTION | TT_ENV | TT_CDATA | TT_FIBER
| TT_STRUCT | TT_ISTRUCT | TT_BREAK | TT_COMPLEX | TT_RATIONAL.

Inductive mrb_value : Type :=
| mrb_nil_value
| mrb_false_value
| mrb_true_value
| mrb_undef_value
| mrb_symbol_value (name : string)
| mrb_float_value (bits : Z)
| mrb_int_value (i : Z)
| mrb_str_value (s : string)
| mrb_ary_value (items : list mrb_value)
| mrb_hash_value (entries : list (mrb_value * mrb_value))
| mrb_bigint_value (z : Z)
| mrb_obj_value (tt : mrb_object_tt) (id : Z).

Definition mrb_type (v : mrb_value) : mrb_vtype :=
  match v with
  | mrb_nil_value | mrb_false_value => MRB_TT_FALSE
  | mrb_true_value => MRB_TT_TRUE
  | mrb_undef_value => MRB_TT_UNDEF
  | mrb_symbol_value _ => MRB_TT_SYMBOL
  | mrb_float_value _ => MRB_TT_FLOAT
  | mrb_int_value _ => MRB_TT_INTEGER
  | mrb_str_value _ => MRB_TT_STRING
  | mrb_ary_value _ => MRB_TT_ARRAY
  | mrb_hash_value _ => MRB_TT_HASH
  | mrb_bigint_value _ => MRB_TT_BIGINT
  | mrb_obj_value t _ => MRB_TT_OTHER t
  end.

Definition mrb_bool_value (b : bool) : mrb_value :=
  if b then mrb_true_value else mrb_false_value.

(** A block handed to a method ([&] of [mrb_get_args]): [None] when the
    caller gave none ([mrb_proc_p] is false), else what [mrb_yield] does. *)
Definition mrb_block : Type := option (list mrb_value -> mrb_result mrb_value).

(** ** ErrorTaxonomy: [is_lookup_miss], [raise_simdjson_error] *)

Definition is_lookup_miss (code : error_code) : bool :=
  match code with
  | NO_SUCH_FIELD | OUT_OF_BOUNDS | INDEX_OUT_OF_BOUNDS | INCORRECT_TYPE => true
  | _ => false
  end.

(** The class [raise_simdjson_error] picks for a code; [None] is the
    MEMALLOC branch, which raises the host's preallocated out-of-memory
    exception instead of a class with a message. *)
Definition simdjson_error_class (code : error_code) : option exc_class :=
  match code with
  | UNCLOSED_STRING => Some E_JSON_UNCLOSED_STRING_ERROR
  | STRING_ERROR => Some E_JSON_STRING_ERROR
  | UNESCAPED_CHARS => Some E_JSON_UNESCAPED_CHARS_ERROR
  | TAPE_ERROR => Some E_JSON_TAPE_ERROR
  | DEPTH_ERROR => Some E_JSON_DEPTH_ERROR
  | INCOMPLETE_ARRAY_OR_OBJECT => Some E_JSON_INCOMPLETE_ARRAY_OR_OBJECT_ERROR
  | TRAILING_CONTENT => Some E_JSON_TRAILING_CONTENT_ERROR
  | MEMALLOC => None
  | CAPACITY => Some E_JSON_CAPACITY_ERROR
  | OUT_OF_CAPACITY => Some E_JSON_OUT_OF_CAPACITY_ERROR
  | INSUFFICIENT_PADDING => Some E_JSON_INSUFFICIENT_PADDING_ERROR
  | NUMBER_ERROR => Some E_JSON_NUMBER_ERROR
  | BIGINT_ERROR => Some E_JSON_BIGINT_ERROR
  | NUMBER_OUT_OF_RANGE => Some E_JSON_NUMBER_OUT_OF_RANGE_ERROR
  | T_ATOM_ERROR => Some E_JSON_T_ATOM_ERROR
  | F_ATOM_ERROR => Some E_JSON_F_ATOM_ERROR
  | N_ATOM_ERROR => Some E_JSON_N_ATOM_ERROR
  | UTF8_ERROR => Some E_JSON_UTF8_ERROR
  | EMPTY => Some E_JSON_EMPTY_INPUT_ERROR
  | UNINITIALIZED => Some E_JSON_UNINITIALIZED_ERROR
  | PARSER_IN_USE => Some E_JSON_PARSER_IN_USE_ERROR
  | SCALAR_DOCUMENT_AS_VALUE => Some E_JSON_SCALAR_DOCUMENT_AS_VALUE_ERROR
  | INCORRECT_TYPE => Some E_TYPE_ERROR
  | NO_SUCH_FIELD => Some E_JSON_NO_SUCH_FIELD_ERROR
  | INDEX_OUT_OF_BOUNDS => Some E_INDEX_ERROR
  | OUT_OF_BOUNDS => Some E_JSON_OUT_OF_BOUNDS_ERROR
  | OUT_OF_ORDER_ITERATION => Some E_JSON_OUT_OF_ORDER_ITERATION_ERROR
  | IO_ERROR => Some E_JSON_IO_ERROR
  | INVALID_JSON_POINTER => Some E_JSON_INVALID_JSON_POINTER_ERROR
  | INVALID_URI_FRAGMENT => Some E_JSON_INVALID_URI_FRAGMENT_ERROR
  | UNSUPPORTED_ARCHITECTURE => Some E_JSON_UNSUPPORTED_ARCHITECTURE_ERROR
  | UNEXPECTED_ERROR => Some E_JSON_UNEXPECTED_ERROR
  | OTHER_ERROR_CODE => Some E_JSON_PARSER_ERROR
  end.

(** [raise_simdjson_error(mrb, code)]: the exception it leaves with.
    [error_message] is the engine's [simdjson::error_message]. *)
Definition raise_simdjson_error (error_message : error_code -> string)
  (code : error_code) : mrb_exc :=
  let msg := error_message code in
  match simdjson_error_class code with
  | Some cls => Exc cls msg
  | None => NoMemErr
  end.

(** ** BufferManager: [need_allocation] and the two view builders *)

Definition SIMDJSON_PADDING : Z := 64.
Definition SIZE_MAX : Z := 2 ^ 64 - 1.

(** Conversion to [uintptr_t] / [size_t]. *)
Definition wrap64 (z : Z) : Z := z mod 2 ^ 64.

(** [need_allocation(buf, len, capa)].  [MRB_DEBUG] is the build flag
    and [pagesize] the file-level variable set at gem init. *)
Definition need_allocation (MRB_DEBUG : bool) (pagesize : Z)
  (buf len capa : Z) : bool :=
  if MRB_DEBUG then true
  else
    let end_ := wrap64 (buf + len - 1) in
    let offset := end_ mod wrap64 pagesize in
    if wrap64 (offset + SIMDJSON_PADDING) <? wrap64 pagesize then false
    else if wrap64 (len + SIMDJSON_PADDING) <=? wrap64 capa then false
    else true.

(** The part of a host [RString] the view builders read and write. *)
Record RString : Type := mkRString {
  RSTRING_PTR : Z;
  RSTRING_LEN : Z;
  RSTRING_CAPA : Z;
  mrb_frozen_p : bool
}.

Definition mrb_obj_freeze (s : RString) : RString :=
  mkRString (RSTRING_PTR s) (RSTRING_LEN s) (RSTRING_CAPA s) true.

Definition RSTR_SET_LEN (s : RString) (len : Z) : RString :=
  mkRString (RSTRING_PTR s) len (RSTRING_CAPA s) (mrb_frozen_p s).

(** [mrb_str_resize(mrb, str, n)]: length and capacity become [n]; the
    bytes may move, [realloc] says where to. *)
Definition mrb_str_resize (realloc : Z -> Z -> Z) (s : RString) (n : Z)
  : RString :=
  mkRString (realloc (RSTRING_PTR s) n) n n (mrb_frozen_p s).

(** Where the bytes of a view live: in the host string itself, or in a
    private padded copy ([padded_string]). *)
Inductive view_bytes : Type :=
| HostBytes (ptr : Z)
| PaddedCopy.

Record padded_string_view : Type := mkView {
  view_bytes_of : view_bytes;
  view_len : Z;
  view_capacity : Z
}.

Record build_config : Type := mkConfig {
  MRB_DEBUG : bool;
  pagesize : Z;
  zero_copy_parsing : bool;       (* JSON.@zero_copy_parsing, mrb_test'ed *)
  realloc : Z -> Z -> Z
}.

Definition too_large_for_padding : mrb_exc :=
  Exc E_RUNTIME_ERROR "JSON input too large for padding".

(** [simdjson_safe_view_from_mrb_string]: the string as it is left and
    the view handed to the engine. *)
Definition simdjson_safe_view_from_mrb_string (cfg : build_config)
  (str : RString) : mrb_result (RString * padded_string_view) :=
  let len := RSTRING_LEN str in
  if zero_copy_parsing cfg
     && negb (need_allocation (MRB_DEBUG cfg) (pagesize cfg)
                (RSTRING_PTR str) len (RSTRING_CAPA str))
  then
    let str := mrb_obj_freeze str in
    Ok (str, mkView (HostBytes (RSTRING_PTR str)) len (len + SIMDJSON_PADDING))
  else if mrb_frozen_p str then
    Ok (str, mkView PaddedCopy len (len + SIMDJSON_PADDING))
  else if SIZE_MAX - SIMDJSON_PADDING <? wrap64 len then
    Raise too_large_for_padding
  else
    let required := len + SIMDJSON_PADDING in
    let str :=
      if RSTRING_CAPA str <? required then
        RSTR_SET_LEN
          (mrb_obj_freeze (mrb_str_resize (realloc cfg) str required)) len
      else str in
    Ok (str, mkView (HostBytes (RSTRING_PTR str)) len required).

(** [mrb_padded_string_view_initialize] as the builder below calls it:
    on a host string with an explicit capacity ([argc = 2]), on a host
    string alone, or on a [PaddedString] object. *)
Inductive view_args : Type :=
| args_str_capa (buf : RString) (capa : Z)
| args_str (buf : RString)
| args_padded_string (len : Z).

Definition mrb_padded_string_view_initialize (a : view_args)
  : padded_string_view :=
  match a with
  | args_str_capa buf capa =>
      mkView (HostBytes (RSTRING_PTR buf)) (RSTRING_LEN buf) capa
  | args_str buf =>
      mkView (HostBytes (RSTRING_PTR buf)) (RSTRING_LEN buf) (RSTRING_CAPA buf)
  | args_padded_string len =>
      mkView PaddedCopy len (len + SIMDJSON_PADDING)
  end.

(** [make_padded_string_view_from_ruby_str]: the lazy entry points'
    builder. *)
Definition make_padded_string_view_from_ruby_str (cfg : build_config)
  (str : RString) : mrb_result (RString * padded_string_view) :=
  let len := RSTRING_LEN str in
  if zero_copy_parsing cfg
     && negb (need_allocation (MRB_DEBUG cfg) (pagesize cfg)
                (RSTRING_PTR str) len (RSTRING_CAPA str))
  then
    let str := mrb_obj_freeze str in
    Ok (str, mrb_padded_string_view_initialize
               (args_str_capa str (len + SIMDJSON_PADDING)))
  else if mrb_frozen_p str then
    Ok (str, mrb_padded_string_view_initialize (args_padded_string len))
  else if SIZE_MAX - SIMDJSON_PADDING <? wrap64 len then
    Raise too_large_for_padding
  else
    let required := len + SIMDJSON_PADDING in
    let str :=
      if RSTRING_CAPA str <? required then
        RSTR_SET_LEN
          (mrb_obj_freeze (mrb_str_resize (realloc cfg) str required)) len
      else str in
    Ok (str, mrb_padded_string_view_initialize (args_str str)).

(** A view that reads the host string's own bytes. *)
Definition borrows_host_bytes (v : padded_string_view) : bool :=
  match view_bytes_of v with
  | HostBytes _ => true
  | PaddedCopy => false
  end.

(** ** What the file calls in the host and in the engine's leaf API *)

(** The eager parser's tree ([dom::element]); an object keeps its fields
    in document order. *)
Inductive dom_element : Type :=
| dom_ARRAY (items : list dom_element)
| dom_OBJECT (fields : list (string * dom_element))
| dom_INT64 (i : Z)
| dom_UINT64 (u : Z)
| dom_DOUBLE (bits : Z)
| dom_STRING (sv : string)
| dom_BOOL (b : bool)
| dom_NULL_VALUE
| dom_unknown_type.          (* a tag outside the switch: the [default] branch *)

Record Platform : Type := mkPlatform {
  (* simdjson *)
  error_message : error_code -> string;
  dom_parse : string -> simdjson_result dom_element;   (* dom::parser::parse on the viewed bytes *)
  escape : string -> string;            (* the body escape_and_append_with_quotes writes *)
  double_to_chars : Z -> string;        (* what append(double) writes *)
  validate_unicode : string -> bool;    (* string_builder::validate_unicode *)
  (* mruby and mruby/num_helpers.hpp *)
  mrb_convert_number_double : Z -> mrb_result mrb_value;
  mrb_convert_number_int64 : Z -> mrb_result mrb_value;
  mrb_convert_number_uint64 : Z -> mrb_result mrb_value;
  mrb_str_to_integer : string -> mrb_result mrb_value;
  mrb_obj_as_string : mrb_value -> mrb_result string;
  mrb_intern : string -> string;        (* symbol for a key; a symbol is its name *)
  get_args_type_message : mrb_value -> string   (* text of mrb_get_args' TypeError *)
}.

(** [mrb_hash_set] on an insertion-ordered table: an existing key keeps
    its place and takes the new value, a new key goes last.  Keys are
    compared as the host's [eql?] does on the kinds of key the gem
    creates. *)
Definition mrb_eql (a b : mrb_value) : bool :=
  match a, b with
  | mrb_str_value s, mrb_str_value t => String.eqb s t
  | mrb_symbol_value s, mrb_symbol_value t => String.eqb s t
  | mrb_int_value i, mrb_int_value j => Z.eqb i j
  | mrb_nil_value, mrb_nil_value => true
  | mrb_true_value, mrb_true_value => true
  | mrb_false_value, mrb_false_value => true
  | _, _ => false
  end.

Fixpoint mrb_hash_set (hash : list (mrb_value * mrb_value)) (key val : mrb_value)
  : list (mrb_value * mrb_value) :=
  match hash with
  | [] => [(key, val)]
  | (k, v) :: rest =>
      if mrb_eql k key then (k, val) :: rest
      else (k, v) :: mrb_hash_set rest key val
  end.

(** ** ValueMaterializer, on-demand side *)

Inductive number : Type :=
| floating_point_number (get_double : Z)
| signed_integer (get_int64 : Z)
| unsigned_integer (get_uint64 : Z)
| big_integer
| unknown_number_type.

(** What the engine answers when a value is read: the constructor is the
    answer of [v.type()], its fields the answers of the getters the
    converter calls for that type. *)
Inductive ondemand_value : Type :=
| ov_type_error (c : error_code)
| ov_object_error (c : error_code)
| ov_object (is_empty : simdjson_result bool)
            (fields : list (simdjson_result string * simdjson_result ondemand_value))
| ov_array_error (c : error_code)
| ov_array (is_empty : simdjson_result bool)
           (items : list (simdjson_result ondemand_value))
| ov_string (get_string : simdjson_result string)
| ov_number (get_number : simdjson_result number) (raw_json_token : string)
| ov_boolean (get_bool : simdjson_result bool)
| ov_null
| ov_unknown.

Definition ondemand_field : Type :=
  (simdjson_result string * simdjson_result ondemand_value)%type.

(** [code = field.unescaped_key().get(k); if (code == SUCCESS) code =
    field.value().get(v);] *)
Definition field_key_value (f : ondemand_field)
  : simdjson_result (string * ondemand_value) :=
  match fst f with
  | sr_ok k =>
      match snd f with
      | sr_ok v => sr_ok (k, v)
      | sr_err code => sr_err code
      end
  | sr_err code => sr_err code
  end.

Section Materializer.
Variable P : Platform.

Definition raise_error {A : Type} (code : error_code) : mrb_result A :=
  Raise (raise_simdjson_error (error_message P) code).

Definition convert_number_from_ondemand (get_number : simdjson_result number)
  (raw_json_token : string) : mrb_result mrb_value :=
  match get_number with
  | sr_ok (floating_point_number d) => mrb_convert_number_double P d
  | sr_ok (signed_integer i) => mrb_convert_number_int64 P i
  | sr_ok (unsigned_integer u) => mrb_convert_number_uint64 P u
  | sr_ok big_integer => mrb_str_to_integer P raw_json_token
  | sr_ok unknown_number_type =>
      Raise (Exc E_JSON_NUMBER_ERROR "unknown number type")
  | sr_err code => raise_error code
  end.

Definition convert_string_from_ondemand (get_string : simdjson_result string)
  : mrb_result mrb_value :=
  match get_string with
  | sr_ok dec => Ok (mrb_str_value dec)
  | sr_err code => raise_error code
  end.

Section Loops.
Variable convert : ondemand_value -> mrb_result mrb_value.

(** The loop of [convert_ondemand_array]. *)
Fixpoint convert_array_items (items : list (simdjson_result ondemand_value))
  (ary : list mrb_value) : mrb_result mrb_value :=
  match items with
  | [] => Ok (mrb_ary_value ary)
  | item :: rest =>
      match item with
      | sr_ok val =>
          x <- convert val ;;
          convert_array_items rest (ary ++ [x])
      | sr_err c => Throw c
      end
  end.

(** The loop of [convert_ondemand_object]. *)
Fixpoint convert_object_fields (fields : list ondemand_field)
  (hash : list (mrb_value * mrb_value)) : mrb_result mrb_value :=
  match fields with
  | [] => Ok (mrb_hash_value hash)
  | (key, value) :: rest =>
      match key with
      | sr_ok k =>
          match value with
          | sr_ok v =>
              val <- convert v ;;
              convert_object_fields rest
                (mrb_hash_set hash (mrb_str_value k) val)
          | sr_err code => raise_error code
          end
      | sr_err code => raise_error code
      end
  end.
End Loops.

Fixpoint convert_ondemand_value_to_mrb (v : ondemand_value)
  : mrb_result mrb_value :=
  match v with
  | ov_type_error c => Throw c
  | ov_object_error c => Throw c
  | ov_object is_empty fields =>          (* convert_ondemand_object *)
      match is_empty with
      | sr_ok true => Ok (mrb_hash_value [])
      | sr_ok false =>
          convert_object_fields convert_ondemand_value_to_mrb fields []
      | sr_err code => raise_error code
      end
  | ov_array_error c => Throw c
  | ov_array is_empty items =>            (* convert_ondemand_array *)
      match is_empty with
      | sr_ok true => Ok (mrb_ary_value [])
      | sr_ok false =>
          convert_array_items convert_ondemand_value_to_mrb items []
      | sr_err code => raise_error code
      end
  | ov_string get_string => convert_string_from_ondemand get_string
  | ov_number get_number raw => convert_number_from_ondemand get_number raw
  | ov_boolean get_bool => b <- value_or_throw get_bool ;; Ok (mrb_bool_value b)
  | ov_null => Ok mrb_nil_value
  | ov_unknown => Raise (Exc E_TYPE_ERROR "unknown JSON type")
  end.
End Materializer.

(** ** LazyDocument *)

(** The document operations of the engine a navigation call can make. *)
Inductive lookup : Type :=
| by_key (k : string)                     (* doc[k] *)
| by_index (i : Z)                        (* doc->at(i), i a size_t *)
| by_find_field (k : string)
| by_find_field_unordered (k : string)
| by_pointer (json_pointer : string)
| by_path (json_path : string).

Record ondemand_array : Type := mkArray {
  count_elements : simdjson_result Z;
  array_items : list (simdjson_result ondemand_value)
}.

(** The on-demand engine: an [ondemand::document] is a cursor, so every
    operation on it also returns the cursor as it is left. *)
Record OnDemand : Type := mkOnDemand {
  document : Type;
  parser : Type;
  new_parser : parser;
  is_alive : document -> bool;
  iterate : parser -> padded_string_view -> simdjson_result document;
  doc_lookup : document -> lookup -> simdjson_result ondemand_value * document;
  doc_at_path_with_wildcard :
    document -> string -> simdjson_result (list ondemand_value) * document;
  doc_get_array : document -> simdjson_result ondemand_array * document;
  doc_get_object : document -> simdjson_result (list ondemand_field) * document;
  doc_rewind : document -> document
}.

(** The calls made to the engine, in order (a ghost field of the
    [JSON::Document] object below). *)
Inductive engine_call : Type :=
| call_iterate
| call_lookup (l : lookup)
| call_at_path_with_wildcard (json_path : string)
| call_get_array
| call_get_object
| call_rewind.

Section LazyDocument.
Variable P : Platform.
Variable E : OnDemand.

(** A [JSON::Document]: the C++ document it wraps and the two
    instance variables kept for rehydration. *)
Record Document : Type := mkDocument {
  self_id : Z;
  cpp_doc : document E;
  iv_view : padded_string_view;
  iv_parser : parser E;
  engine_calls : list engine_call
}.

Definition self_value (self : Document) : mrb_value :=
  mrb_obj_value TT_CDATA (self_id self).

Definition record_call (c : engine_call) (self : Document) : Document :=
  mkDocument (self_id self) (cpp_doc self) (iv_view self) (iv_parser self)
    (engine_calls self ++ [c]).

Definition set_cpp_doc (self : Document) (doc : document E) : Document :=
  mkDocument (self_id self) doc (iv_view self) (iv_parser self)
    (engine_calls self).

(** A method of the document: its outcome and the object as it is left
    (a raise does not undo what was done before it). *)
Definition method (A : Type) : Type := Document -> mrb_result A * Document.

(** [mrb_json_doc_initialize(view_obj, parser_obj)]. *)
Definition mrb_json_doc_initialize (id : Z) (view_obj : padded_string_view)
  (parser_obj : option (parser E)) : mrb_result Document :=
  let parser_obj :=
    match parser_obj with
    | Some p => p
    | None => new_parser E
    end in
  match iterate E parser_obj view_obj with
  | sr_ok doc => Ok (mkDocument id doc view_obj parser_obj [call_iterate])
  | sr_err code => raise_error P code
  end.

(** [mrb_json_doc_get]: the liveness check and the rehydration. *)
Definition mrb_json_doc_get : method unit := fun self =>
  if is_alive E (cpp_doc self) then (Ok tt, self)
  else
    let self := record_call call_iterate self in
    match iterate E (iv_parser self) (iv_view self) with
    | sr_ok doc => (Ok tt, set_cpp_doc self doc)
    | sr_err code => (raise_error P code, self)
    end.

(** [auto *const doc = mrb_json_doc_get(mrb, self);] followed by the
    rest of a method. *)
Definition after_doc_get {A : Type} (rest : method A) : method A := fun self =>
  match mrb_json_doc_get self with
  | (Ok _, self) => rest self
  | (Raise e, self) => (Raise e, self)
  | (Throw c, self) => (Throw c, self)
  end.

Definition engine_lookup (l : lookup) (self : Document)
  : simdjson_result ondemand_value * Document :=
  let r := doc_lookup E (cpp_doc self) l in
  (fst r, set_cpp_doc (record_call (call_lookup l) self) (snd r)).

(** The tail shared by [aref], [find_field], [find_field_unordered],
    [at], [at_pointer] and [at_path]: convert on success, [nil] on a
    lookup miss, raise otherwise. *)
Definition value_or_nil (l : lookup) : method mrb_value := fun self =>
  let r := engine_lookup l self in
  match fst r with
  | sr_ok val => (convert_ondemand_value_to_mrb P val, snd r)
  | sr_err code =>
      if is_lookup_miss code then (Ok mrb_nil_value, snd r)
      else (raise_error P code, snd r)
  end.

(** [mrb_get_args(mrb, "S", &key)]: only a String gets through. *)
Definition get_args_S (arg : mrb_value) : mrb_result string :=
  match arg with
  | mrb_str_value s => Ok s
  | _ => Raise (Exc E_TYPE_ERROR (get_args_type_message P arg))
  end.

Definition mrb_json_doc_aref (arg : mrb_value) : method mrb_value := fun self =>
  match get_args_S arg with
  | Ok key => after_doc_get (value_or_nil (by_key key)) self
  | Raise e => (Raise e, self)
  | Throw c => (Throw c, self)
  end.

Definition mrb_json_doc_find_field (key : string) : method mrb_value :=
  after_doc_get (value_or_nil (by_find_field key)).

Definition mrb_json_doc_find_field_unordered (key : string) : method mrb_value :=
  after_doc_get (value_or_nil (by_find_field_unordered key)).

Definition mrb_json_doc_at (index : Z) : method mrb_value :=
  after_doc_get (value_or_nil (by_index (wrap64 index))).

Definition mrb_json_doc_at_pointer (ptr_val : string) : method mrb_value :=
  after_doc_get (value_or_nil (by_pointer ptr_val)).

Definition mrb_json_doc_at_path (path_val : string) : method mrb_value :=
  after_doc_get (value_or_nil (by_path path_val)).

(** What [fetch] does with a miss. *)
Definition fetch_miss (not_found : mrb_exc) (key_or_index : mrb_value)
  (default_val : option mrb_value) (block : mrb_block) : mrb_result mrb_value :=
  match default_val with
  | Some d => Ok d
  | None =>
      match block with
      | Some yield => yield [key_or_index]
      | None => Raise not_found
      end
  end.

Definition fetch_with (l : lookup) (not_found : mrb_exc)
  (key_or_index : mrb_value) (default_val : option mrb_value)
  (block : mrb_block) : method mrb_value := fun self =>
  let r := engine_lookup l self in
  match fst r with
  | sr_ok val => (convert_ondemand_value_to_mrb P val, snd r)
  | sr_err code =>
      if is_lookup_miss code
      then (fetch_miss not_found key_or_index default_val block, snd r)
      else (raise_error P code, snd r)
  end.

Definition fetch_body (key_or_index : mrb_value)
  (default_val : option mrb_value) (block : mrb_block) : method mrb_value :=
  fun self =>
  match key_or_index with
  | mrb_int_value idx =>
      fetch_with (by_index (wrap64 idx)) (Exc E_INDEX_ERROR "index not found")
        key_or_index default_val block self
  | _ =>
      match mrb_obj_as_string P key_or_index with
      | Ok key_str =>
          fetch_with (by_key key_str) (Exc E_KEY_ERROR "key not found")
            key_or_index default_val block self
      | Raise e => (Raise e, self)
      | Throw c => (Throw c, self)
      end
  end.

Definition mrb_json_doc_fetch (key_or_index : mrb_value)
  (default_val : option mrb_value) (block : mrb_block) : method mrb_value :=
  after_doc_get (fetch_body key_or_index default_val block).

(** The two loops of [at_path_with_wildcard]. *)
Fixpoint yield_each (yield : list mrb_value -> mrb_result mrb_value)
  (values : list ondemand_value) : mrb_result unit :=
  match values with
  | [] => Ok tt
  | v :: rest =>
      x <- convert_ondemand_value_to_mrb P v ;;
      _ <- yield [x] ;;
      yield_each yield rest
  end.

Fixpoint push_each (values : list ondemand_value) (ary : list mrb_value)
  : mrb_result mrb_value :=
  match values with
  | [] => Ok (mrb_ary_value ary)
  | v :: rest =>
      x <- convert_ondemand_value_to_mrb P v ;;
      push_each rest (ary ++ [x])
  end.

Definition at_path_with_wildcard_body (path_val : string) (block : mrb_block)
  : method mrb_value := fun self =>
  let r := doc_at_path_with_wildcard E (cpp_doc self) path_val in
  let self :=
    set_cpp_doc (record_call (call_at_path_with_wildcard path_val) self) (snd r) in
  match fst r with
  | sr_ok values =>
      match block with
      | Some yield =>
          (_ <- yield_each yield values ;; Ok (self_value self), self)
      | None => (push_each values [], self)
      end
  | sr_err code =>
      if is_lookup_miss code then (Ok mrb_nil_value, self)
      else (raise_error P code, self)
  end.

Definition mrb_json_doc_at_path_with_wildcard (path_val : string)
  (block : mrb_block) : method mrb_value :=
  after_doc_get (at_path_with_wildcard_body path_val block).

(** The block loop of [array_each]. *)
Fixpoint array_each_yield (yield : list mrb_value -> mrb_result mrb_value)
  (items : list (simdjson_result ondemand_value)) : mrb_result unit :=
  match items with
  | [] => Ok tt
  | item :: rest =>
      v <- value_or_throw item ;;
      ruby_val <- convert_ondemand_value_to_mrb P v ;;
      _ <- yield [ruby_val] ;;
      array_each_yield yield rest
  end.

Definition array_each_body (block : mrb_block) : method mrb_value := fun self =>
  let r := doc_get_array E (cpp_doc self) in
  let self := set_cpp_doc (record_call call_get_array self) (snd r) in
  match fst r with
  | sr_ok array =>
      match block with
      | Some yield =>
          (_ <- array_each_yield yield (array_items array) ;;
           Ok (self_value self), self)
      | None =>
          match count_elements array with
          | sr_ok _ =>
              (convert_array_items (convert_ondemand_value_to_mrb P)
                 (array_items array) [], self)
          | sr_err code => (raise_error P code, self)
          end
      end
  | sr_err code => (raise_error P code, self)
  end.

Definition mrb_json_doc_array_each (block : mrb_block) : method mrb_value :=
  after_doc_get (array_each_body block).

(** The block loop of [object_each]. *)
Fixpoint object_each_yield (yield : list mrb_value -> mrb_result mrb_value)
  (fields : list ondemand_field) : mrb_result unit :=
  match fields with
  | [] => Ok tt
  | field :: rest =>
      match field_key_value field with
      | sr_ok (k, v) =>
          val <- convert_ondemand_value_to_mrb P v ;;
          _ <- yield [mrb_str_value k; val] ;;
          object_each_yield yield rest
      | sr_err code => raise_error P code
      end
  end.

(** The loop of [object_each] without a block: its [if (code ==
    SUCCESS)] has no [else]. *)
Fixpoint object_each_collect (fields : list ondemand_field)
  (hash : list (mrb_value * mrb_value)) : mrb_result mrb_value :=
  match fields with
  | [] => Ok (mrb_hash_value hash)
  | field :: rest =>
      match field_key_value field with
      | sr_ok (k, v) =>
          val <- convert_ondemand_value_to_mrb P v ;;
          object_each_collect rest (mrb_hash_set hash (mrb_str_value k) val)
      | sr_err _ => object_each_collect rest hash
      end
  end.

Definition object_each_body (block : mrb_block) : method mrb_value := fun self =>
  let r := doc_get_object E (cpp_doc self) in
  let self := set_cpp_doc (record_call call_get_object self) (snd r) in
  match fst r with
  | sr_ok object =>
      match block with
      | Some yield =>
          (_ <- object_each_yield yield object ;; Ok (self_value self), self)
      | None => (object_each_collect object [], self)
      end
  | sr_err code => (raise_error P code, self)
  end.

Definition mrb_json_doc_object_each (block : mrb_block) : method mrb_value :=
  after_doc_get (object_each_body block).

Definition mrb_json_doc_rewind : method mrb_value := fun self =>
  let self := set_cpp_doc (record_call call_rewind self)
                (doc_rewind E (cpp_doc self)) in
  (Ok (self_value self), self).

Definition mrb_json_doc_reiterate : method mrb_value := fun self =>
  let self := record_call call_iterate self in
  match iterate E (iv_parser self) (iv_view self) with
  | sr_ok doc =>
      let self := set_cpp_doc self doc in (Ok (self_value self), self)
  | sr_err code => (raise_error P code, self)
  end.

(** The navigation entry points, with arguments [mrb_get_args] lets
    through. *)
Inductive navigation_call : Type :=
| nav_aref (key : string)
| nav_fetch (key_or_index : mrb_value) (default_val : option mrb_value)
            (block : mrb_block)
| nav_find_field (key : string)
| nav_find_field_unordered (key : string)
| nav_at (index : Z)
| nav_at_pointer (ptr_val : string)
| nav_at_path (path_val : string)
| nav_at_path_with_wildcard (path_val : string) (block : mrb_block)
| nav_array_each (block : mrb_block)
| nav_object_each (block : mrb_block).

Definition navigate (call : navigation_call) : method mrb_value :=
  match call with
  | nav_aref key => mrb_json_doc_aref (mrb_str_value key)
  | nav_fetch k d b => mrb_json_doc_fetch k d b
  | nav_find_field key => mrb_json_doc_find_field key
  | nav_find_field_unordered key => mrb_json_doc_find_field_unordered key
  | nav_at index => mrb_json_doc_at index
  | nav_at_pointer p => mrb_json_doc_at_pointer p
  | nav_at_path p => mrb_json_doc_at_path p
  | nav_at_path_with_wildcard p b => mrb_json_doc_at_path_with_wildcard p b
  | nav_array_each b => mrb_json_doc_array_each b
  | nav_object_each b => mrb_json_doc_object_each b
  end.

(** The same call past its [mrb_json_doc_get]. *)
Definition navigate_body (call : navigation_call) : method mrb_value :=
  match call with
  | nav_aref key => value_or_nil (by_key key)
  | nav_fetch k d b => fetch_body k d b
  | nav_find_field key => value_or_nil (by_find_field key)
  | nav_find_field_unordered key => value_or_nil (by_find_field_unordered key)
  | nav_at index => value_or_nil (by_index (wrap64 index))
  | nav_at_pointer p => value_or_nil (by_pointer p)
  | nav_at_path p => value_or_nil (by_path p)
  | nav_at_path_with_wildcard p b => at_path_with_wildcard_body p b
  | nav_array_each b => array_each_body b
  | nav_object_each b => object_each_body b
  end.

(** The document operation a call makes on the engine; the key of a
    [fetch] goes through the host's string conversion first. *)
Definition fetch_lookup (key_or_index : mrb_value) : mrb_result lookup :=
  match key_or_index with
  | mrb_int_value idx => Ok (by_index (wrap64 idx))
  | _ => key_str <- mrb_obj_as_string P key_or_index ;; Ok (by_key key_str)
  end.

Definition document_op (call : navigation_call) : mrb_result engine_call :=
  match call with
  | nav_aref key => Ok (call_lookup (by_key key))
  | nav_fetch k _ _ => l <- fetch_lookup k ;; Ok (call_lookup l)
  | nav_find_field key => Ok (call_lookup (by_find_field key))
  | nav_find_field_unordered key => Ok (call_lookup (by_find_field_unordered key))
  | nav_at index => Ok (call_lookup (by_index (wrap64 index)))
  | nav_at_pointer p => Ok (call_lookup (by_pointer p))
  | nav_at_path p => Ok (call_lookup (by_path p))
  | nav_at_path_with_wildcard p _ => Ok (call_at_path_with_wildcard p)
  | nav_array_each _ => Ok call_get_array
  | nav_object_each _ => Ok call_get_object
  end.

(** The code the engine answers a document operation with, [None] for
    SUCCESS. *)
Definition code_of {A : Type} (r : simdjson_result A) : option error_code :=
  match r with
  | sr_ok _ => None
  | sr_err code => Some code
  end.

Definition engine_answer (op : engine_call) (doc : document E)
  : option error_code :=
  match op with
  | call_lookup l => code_of (fst (doc_lookup E doc l))
  | call_at_path_with_wildcard p => code_of (fst (doc_at_path_with_wildcard E doc p))
  | call_get_array => code_of (fst (doc_get_array E doc))
  | call_get_object => code_of (fst (doc_get_object E doc))
  | call_iterate | call_rewind => None
  end.

(** The entry points that answer a lookup miss with nil ([fetch] has
    its own resolution, the enumerations have none). *)
Definition returns_nil_on_miss (call : navigation_call) : bool :=
  match call with
  | nav_aref _ | nav_find_field _ | nav_find_field_unordered _ | nav_at _
  | nav_at_pointer _ | nav_at_path _ | nav_at_path_with_wildcard _ _ => true
  | nav_fetch _ _ _ | nav_array_each _ | nav_object_each _ => false
  end.

(** A lookup on [self] that misses: the document is alive or
    rehydrates, and the engine answers the lookup with a code of
    [is_lookup_miss]. *)
Definition lookup_misses (self : Document) (l : lookup) : bool :=
  match mrb_json_doc_get self with
  | (Ok _, self1) =>
      match fst (doc_lookup E (cpp_doc self1) l) with
      | sr_ok _ => false
      | sr_err code => is_lookup_miss code
      end
  | _ => false
  end.
End LazyDocument.

Arguments self_id {E} _.
Arguments cpp_doc {E} _.
Arguments iv_view {E} _.
Arguments iv_parser {E} _.
Arguments engine_calls {E} _.
Arguments record_call {E} _ _.
Arguments set_cpp_doc {E} _ _.
Arguments self_value {E} _.

(** ** Encoder *)

(** The calls the encoder makes on [builder::string_builder], in order. *)
Inductive builder_call : Type :=
| append_null
| append_bool (b : bool)
| append_integer (i : Z)
| append_double (bits : Z)
| escape_and_append_with_quotes (sv : string)
| append_comma
| append_colon
| start_object
| end_object
| start_array
| end_array.

Definition string_builder : Type := list builder_call.

(** [mrb_int] is a signed 64-bit integer. *)
Definition MRB_INT_MIN : Z := - 2 ^ 63.
Definition MRB_INT_MAX : Z := 2 ^ 63 - 1.
Definition to_mrb_int (z : Z) : Z := (z + 2 ^ 63) mod 2 ^ 64 - 2 ^ 63.

Definition decimal (z : Z) : string := NilEmpty.string_of_int (Z.to_int z).

Definition quote : string := String (ascii_of_nat 34) EmptyString.

Section Encoder.
Variable P : Platform.

(** The text one builder call appends, as the builder's interface
    documents it. *)
Definition text_of_call (c : builder_call) : string :=
  match c with
  | append_null => "null"
  | append_bool true => "true"
  | append_bool false => "false"
  | append_integer i => decimal i
  | append_double d => double_to_chars P d
  | escape_and_append_with_quotes sv => quote ++ escape P sv ++ quote
  | append_comma => ","
  | append_colon => ":"
  | start_object => "{"
  | end_object => "}"
  | start_array => "["
  | end_array => "]"
  end%string.

(** [sb.view()]. *)
Fixpoint view (sb : string_builder) : string :=
  match sb with
  | [] => EmptyString
  | c :: rest => (text_of_call c ++ view rest)%string
  end.

Definition json_encode_nil (builder : string_builder) : string_builder :=
  builder ++ [append_null].

Definition json_encode_false (builder : string_builder) : string_builder :=
  builder ++ [append_bool false].

Definition json_encode_true (builder : string_builder) : string_builder :=
  builder ++ [append_bool true].

Definition json_encode_string (sv : string) (builder : string_builder)
  : string_builder :=
  builder ++ [escape_and_append_with_quotes sv].

(** [mrb_sym_str]: a symbol is modelled by its name. *)
Definition json_encode_symbol (name : string) (builder : string_builder)
  : string_builder :=
  json_encode_string name builder.

Definition json_encode_float (bits : Z) (builder : string_builder)
  : string_builder :=
  builder ++ [append_double bits].

Definition json_encode_integer (i : Z) (builder : string_builder)
  : string_builder :=
  builder ++ [append_integer (to_mrb_int i)].

Section EncoderLoops.
Variable encode : mrb_value -> string_builder -> mrb_result string_builder.

(** [mrb_hash_foreach] with [dump_hash_cb]; [first] is [ctx->first].
    The key goes through [mrb_obj_as_string] and the resulting
    String through [json_encode], that is, [json_encode_string]. *)
Fixpoint dump_hash_each (entries : list (mrb_value * mrb_value))
  (first : bool) (builder : string_builder) : mrb_result string_builder :=
  match entries with
  | [] => Ok builder
  | (key, val) :: rest =>
      let builder := if first then builder else builder ++ [append_comma] in
      key_str <- mrb_obj_as_string P key ;;
      let builder := json_encode_string key_str builder in
      let builder := builder ++ [append_colon] in
      builder <- encode val builder ;;
      dump_hash_each rest false builder
  end.

(** [for (mrb_int i = 1; i < n; ++i)] of [json_encode_array]. *)
Fixpoint encode_from_second (items : list mrb_value)
  (builder : string_builder) : mrb_result string_builder :=
  match items with
  | [] => Ok builder
  | item :: rest =>
      builder <- encode item (builder ++ [append_comma]) ;;
      encode_from_second rest builder
  end.
End EncoderLoops.

Fixpoint json_encode (v : mrb_value) (builder : string_builder)
  : mrb_result string_builder :=
  match v with
  | mrb_nil_value => Ok (json_encode_nil builder)          (* MRB_TT_FALSE *)
  | mrb_false_value => Ok (json_encode_false builder)      (* MRB_TT_FALSE *)
  | mrb_true_value => Ok (json_encode_true builder)
  | mrb_symbol_value name => Ok (json_encode_symbol name builder)
  | mrb_float_value d => Ok (json_encode_float d builder)
  | mrb_int_value i => Ok (json_encode_integer i builder)
  | mrb_hash_value entries =>                              (* json_encode_hash *)
      builder <- dump_hash_each json_encode entries true
                   (builder ++ [start_object]) ;;
      Ok (builder ++ [end_object])
  | mrb_ary_value items =>                                 (* json_encode_array *)
      let builder := builder ++ [start_array] in
      match items with
      | [] => Ok (builder ++ [end_array])
      | item0 :: rest =>
          builder <- json_encode item0 builder ;;
          builder <- encode_from_second json_encode rest builder ;;
          Ok (builder ++ [end_array])
      end
  | mrb_str_value sv => Ok (json_encode_string sv builder)
  | mrb_undef_value | mrb_bigint_value _ | mrb_obj_value _ _ =>   (* default: *)
      sv <- mrb_obj_as_string P v ;;
      Ok (json_encode_string sv builder)
  end.

Definition mrb_json_dump (obj : mrb_value) : mrb_result string :=
  sb <- json_encode obj [] ;;
  if validate_unicode P (view sb) then Ok (view sb)
  else Raise (Exc E_JSON_UTF8_ERROR "invalid utf-8").
End Encoder.

(** ** ValueMaterializer, eager side, and [parse] *)

Section Eager.
Variable P : Platform.

Definition convert_key_as_str (sv : string) : mrb_value := mrb_str_value sv.
Definition convert_key_as_sym (sv : string) : mrb_value :=
  mrb_symbol_value (mrb_intern P sv).

Section EagerLoops.
Variable convert : dom_element -> mrb_result mrb_value.

(** The loop of [convert_array]. *)
Fixpoint convert_array_loop (items : list dom_element) (ary : list mrb_value)
  : mrb_result mrb_value :=
  match items with
  | [] => Ok (mrb_ary_value ary)
  | item :: rest =>
      x <- convert item ;;
      convert_array_loop rest (ary ++ [x])
  end.

(** The loop of [convert_object]. *)
Fixpoint convert_object_loop (convert_key : string -> mrb_value)
  (fields : list (string * dom_element))
  (hash : list (mrb_value * mrb_value)) : mrb_result mrb_value :=
  match fields with
  | [] => Ok (mrb_hash_value hash)
  | (k, value) :: rest =>
      let key := convert_key k in
      val <- convert value ;;
      convert_object_loop convert_key rest (mrb_hash_set hash key val)
  end.
End EagerLoops.

Fixpoint convert_element (symbolize_names : bool) (el : dom_element)
  : mrb_result mrb_value :=
  match el with
  | dom_ARRAY items =>                                     (* convert_array *)
      convert_array_loop (convert_element symbolize_names) items []
  | dom_OBJECT fields =>                                   (* convert_object *)
      convert_object_loop (convert_element symbolize_names)
        (if symbolize_names then convert_key_as_sym else convert_key_as_str)
        fields []
  | dom_INT64 i => mrb_convert_number_int64 P i
  | dom_UINT64 u => mrb_convert_number_uint64 P u
  | dom_DOUBLE d => mrb_convert_number_double P d
  | dom_STRING sv => Ok (mrb_str_value sv)
  | dom_BOOL b => Ok (mrb_bool_value b)
  | dom_NULL_VALUE => Ok mrb_nil_value
  | dom_unknown_type => Raise (Exc E_TYPE_ERROR "unknown JSON type")
  end.

(** [mrb_json_parse]: [str] is the host string, [bytes] its contents,
    which the view built from it covers. *)
Definition mrb_json_parse (cfg : build_config) (str : RString) (bytes : string)
  (symbolize_names : bool) : mrb_result mrb_value :=
  _ <- simdjson_safe_view_from_mrb_string cfg str ;;
  match dom_parse P bytes with
  | sr_ok el => convert_element symbolize_names el
  | sr_err code => raise_error P code
  end.
End Eager.

(** ** The values of the round-trip property *)

Definition is_string_key (k : mrb_value) : bool :=
  match k with
  | mrb_str_value _ => true
  | _ => false
  end.

(** The invariant of a host hash: no two keys are [eql?]. *)
Fixpoint unique_keys (keys : list mrb_value) : bool :=
  match keys with
  | [] => true
  | k :: rest => negb (existsb (mrb_eql k) rest) && unique_keys rest
  end.

(** A value built from nil, booleans, 64-bit integers, floats, strings,
    arrays and string-keyed hashes, nested to any depth. *)
Fixpoint is_json_value (v : mrb_value) : bool :=
  match v with
  | mrb_nil_value | mrb_false_value | mrb_true_value => true
  | mrb_int_value i => (MRB_INT_MIN <=? i) && (i <=? MRB_INT_MAX)
  | mrb_float_value _ => true
  | mrb_str_value _ => true
  | mrb_ary_value items => forallb is_json_value items
  | mrb_hash_value entries =>
      forallb (fun kv => is_string_key (fst kv) && is_json_value (snd kv)) entries
      && unique_keys (map fst entries)
  | _ => false
  end.

Definition key_text (k : mrb_value) : string :=
  match k with
  | mrb_str_value s => s
  | _ => EmptyString
  end.

(** The DOM tree that stands for a value. *)
Fixpoint dom_of (v : mrb_value) : dom_element :=
  match v with
  | mrb_nil_value => dom_NULL_VALUE
  | mrb_false_value => dom_BOOL false
  | mrb_true_value => dom_BOOL true
  | mrb_int_value i => dom_INT64 i
  | mrb_float_value d => dom_DOUBLE d
  | mrb_str_value s => dom_STRING s
  | mrb_ary_value items => dom_ARRAY (map dom_of items)
  | mrb_hash_value entries =>
      dom_OBJECT (map (fun kv => (key_text (fst kv), dom_of (snd kv))) entries)
  | _ => dom_unknown_type
  end.

Fixpoint comma_joined (parts : list (list builder_call)) : list builder_call :=
  match parts with
  | [] => []
  | part :: rest =>
      match rest with
      | [] => part
      | _ :: _ => part ++ append_comma :: comma_joined rest
      end
  end.

Arguments comma_joined : simpl never.

(** The builder calls that write a DOM tree as JSON text: scalars by
    their own call, containers comma-joined between their delimiters. *)
Fixpoint builder_calls_of (el : dom_element) : list builder_call :=
  match el with
  | dom_ARRAY items =>
      start_array :: comma_joined (map builder_calls_of items) ++ [end_array]
  | dom_OBJECT fields =>
      start_object ::
      comma_joined
        (map (fun kv => escape_and_append_with_quotes (fst kv) :: append_colon ::
                        builder_calls_of (snd kv)) fields)
      ++ [end_object]
  | dom_INT64 i => [append_integer i]
  | dom_UINT64 u => [append_integer u]
  | dom_DOUBLE d => [append_double d]
  | dom_STRING sv => [escape_and_append_with_quotes sv]
  | dom_BOOL b => [append_bool b]
  | dom_NULL_VALUE => [append_null]
  | dom_unknown_type => []
  end.

(** What the round trip needs of the host: the number helper returns an
    in-range integer as an Integer and a double as a Float, and a String
    converts to itself. *)
Definition host_contract (P : Platform) : Prop :=
  (forall i, MRB_INT_MIN <= i <= MRB_INT_MAX ->
             mrb_convert_number_int64 P i = Ok (mrb_int_value i)) /\
  (forall d, mrb_convert_number_double P d = Ok (mrb_float_value d)) /\
  (forall s, mrb_obj_as_string P (mrb_str_value s) = Ok s).

(** What it needs of the engine on one tree: the DOM parser reads the
    text its own builder wrote for the tree back as that tree. *)
Definition engine_reads_back (P : Platform) (el : dom_element) : Prop :=
  dom_parse P (view P (builder_calls_of el)) = sr_ok el.

(** ** A concrete host and a scripted engine, for running the model *)

Definition sample_platform (parse : string -> simdjson_result dom_element)
  (to_chars : Z -> string) : Platform :=
  mkPlatform
    (fun _ => "engine message"%string)
    parse
    (fun s => s)
    to_chars
    (fun _ => true)
    (fun d => Ok (mrb_float_value d))
    (fun i => Ok (mrb_int_value i))
    (fun u => if u <=? MRB_INT_MAX then Ok (mrb_int_value u)
              else Ok (mrb_bigint_value u))
    (fun _ => Raise (Exc (E_HOST "ArgumentError") "invalid number"))
    (fun v => match v with
              | mrb_str_value s => Ok s
              | mrb_symbol_value name => Ok name
              | mrb_int_value i | mrb_bigint_value i => Ok (decimal i)
              | _ => Ok "#<Object>"%string
              end)
    (fun s => s)
    (fun _ => "cannot be converted to String"%string).

Definition plain_platform : Platform :=
  sample_platform (fun _ => sr_err EMPTY) (fun _ => "0.0"%string).

(** A sample value, [{"a": [nil, true, -5, 1.5, "x"], "b": {}}], and a
    host whose engine reads exactly the text the builder writes for it. *)
Definition sample_value : mrb_value :=
  mrb_hash_value
    [(mrb_str_value "a",
      mrb_ary_value [mrb_nil_value; mrb_true_value; mrb_int_value (-5);
                     mrb_float_value 4609434218613702656; mrb_str_value "x"]);
     (mrb_str_value "b", mrb_hash_value [])].

Definition sample_to_chars (bits : Z) : string :=
  if bits =? 4609434218613702656 then "1.5"%string else "0.0"%string.

Definition sample_text : string :=
  view (sample_platform (fun _ => sr_err EMPTY) sample_to_chars)
    (builder_calls_of (dom_of sample_value)).

Definition sample_reader : Platform :=
  sample_platform
    (fun bytes => if String.eqb bytes sample_text
                  then sr_ok (dom_of sample_value)
                  else sr_err TAPE_ERROR)
    sample_to_chars.

(** A document that answers from a script and never moves. *)
Record script : Type := mkScript {
  script_alive : bool;
  script_lookup : lookup -> simdjson_result ondemand_value;
  script_wildcard : string -> simdjson_result (list ondemand_value);
  script_array : simdjson_result ondemand_array;
  script_object : simdjson_result (list ondemand_field)
}.

Definition empty_script : script :=
  mkScript false (fun _ => sr_err UNINITIALIZED) (fun _ => sr_err UNINITIALIZED)
    (sr_err UNINITIALIZED) (sr_err UNINITIALIZED).

Definition scripted_engine (rehydrated : simdjson_result script) : OnDemand :=
  mkOnDemand script unit tt
    script_alive
    (fun _ _ => rehydrated)
    (fun doc l => (script_lookup doc l, doc))
    (fun doc p => (script_wildcard doc p, doc))
    (fun doc => (script_array doc, doc))
    (fun doc => (script_object doc, doc))
    (fun doc => doc).

Definition sample_view : padded_string_view := mkView PaddedCopy 0 64.

Definition scripted_document (rehydrated : simdjson_result script) (doc : script)
  : Document (scripted_engine rehydrated) :=
  mkDocument (scripted_engine rehydrated) 1 doc sample_view tt [].

(** ** Further definitions: what a view builder promises *)


(** ** Further definitions: the lazy entry points *)

Section LazyEntryPoints.
Variable P : Platform.
Variable E : OnDemand.


End LazyEntryPoints.

(** A field the engine answered with both its key and its value. *)
Definition field_answered (f : ondemand_field) : bool :=
  match field_key_value f with
  | sr_ok _ => true
  | sr_err _ => false
  end.

(** ** Further definitions: the [to_json] methods and the encoder's grammar *)

Section ToJson.
Variable P : Platform.




End ToJson.

(** Mapping a fallible function over a list: the results in order, or
    the first failure. *)
Section MapResult.
Variables A B : Type.
Variable f : A -> mrb_result B.

Fixpoint map_result (l : list A) : mrb_result (list B) :=
  match l with
  | [] => Ok []
  | x :: rest =>
      y <- f x ;;
      ys <- map_result rest ;;
      Ok (y :: ys)
  end.
End MapResult.
Arguments map_result {A B} f l.

(** The grammar the encoder is compared with: the builder calls of a
    value, with containers comma-joined between their delimiters and a
    hash key converted to a string and written like a string. *)
Fixpoint json_calls (P : Platform) (v : mrb_value)
  : mrb_result (list builder_call) :=
  match v with
  | mrb_nil_value => Ok [append_null]
  | mrb_false_value => Ok [append_bool false]
  | mrb_true_value => Ok [append_bool true]
  | mrb_symbol_value name => Ok [escape_and_append_with_quotes name]
  | mrb_float_value d => Ok [append_double d]
  | mrb_int_value i => Ok [append_integer (to_mrb_int i)]
  | mrb_str_value sv => Ok [escape_and_append_with_quotes sv]
  | mrb_ary_value items =>
      parts <- map_result (json_calls P) items ;;
      Ok (start_array :: comma_joined parts ++ [end_array])
  | mrb_hash_value entries =>
      parts <- map_result
                 (fun kv =>
                    key_str <- mrb_obj_as_string P (fst kv) ;;
                    val <- json_calls P (snd kv) ;;
                    Ok (escape_and_append_with_quotes key_str :: append_colon :: val))
                 entries ;;
      Ok (start_object :: comma_joined parts ++ [end_object])
  | mrb_undef_value | mrb_bigint_value _ | mrb_obj_value _ _ =>
      sv <- mrb_obj_as_string P v ;;
      Ok [escape_and_append_with_quotes sv]
  end.

(** ** Further definitions: reading a converted hash *)

(** Lookup in the insertion-ordered table of [mrb_hash_set]. *)
Fixpoint mrb_hash_get (hash : list (mrb_value * mrb_value)) (key : mrb_value)
  : option mrb_value :=
  match hash with
  | [] => None
  | (k, v) :: rest => if mrb_eql k key then Some v else mrb_hash_get rest key
  end.

(** The value of the last field named [k] in a DOM object. *)
Fixpoint last_field (k : string) (fields : list (string * dom_element))
  : option dom_element :=
  match fields with
  | [] => None
  | (k', el) :: rest =>
      match last_field k rest with
      | Some later => Some later
      | None => if String.eqb k' k then Some el else None
      end
  end.

(** The hash a list of key/value pairs builds when set one by one. *)
Definition hash_of_pairs (pairs : list (mrb_value * mrb_value))
  : list (mrb_value * mrb_value) :=
  fold_left (fun hash kv => mrb_hash_set hash (fst kv) (snd kv)) pairs [].

(* ===================================================================== *)
(** * Part II.  Theorems                                                  *)
(* ===================================================================== *)

(** ** BufferManager *)

Lemma wrap64_small (z : Z) : 0 <= z < 2 ^ 64 -> wrap64 z = z.
Proof. intros H. unfold wrap64. apply Z.mod_small. exact H. Qed.

(** C5.  In a non-debug build [need_allocation] answers "no allocation"
    (zero-copy is safe) exactly when [offset + PADDING < page_size], with
    [offset] the address of the final byte modulo the page size, or the
    capacity is at least [length + PADDING]; in a debug build it always
    answers "allocate".  The hypotheses are the ranges of the C types: a
    positive [long] page size, non-negative [mrb_int] length and
    capacity, and a final byte whose address is a [uintptr_t]. *)
Theorem need_allocation_zero_copy_rule (pagesize buf len capa : Z) :
  1 <= pagesize < 2 ^ 63 ->
  0 <= len < 2 ^ 63 ->
  0 <= capa < 2 ^ 63 ->
  0 <= buf + len - 1 < 2 ^ 64 ->
  let offset := (buf + len - 1) mod pagesize in
  (need_allocation false pagesize buf len capa = false <->
     offset + SIMDJSON_PADDING < pagesize \/ capa >= len + SIMDJSON_PADDING)
  /\ need_allocation true pagesize buf len capa = true.
Proof.
  intros Hp Hl Hc He offset. split; [| reflexivity].
  unfold need_allocation, SIMDJSON_PADDING in *.
  assert (Hoff : 0 <= offset < pagesize) by (apply Z.mod_pos_bound; lia).
  rewrite (wrap64_small (buf + len - 1)) by lia.
  rewrite (wrap64_small pagesize) by lia.
  fold offset.
  rewrite (wrap64_small (offset + 64)) by lia.
  rewrite (wrap64_small (len + 64)) by lia.
  rewrite (wrap64_small capa) by lia.
  destruct (Z.ltb_spec (offset + 64) pagesize) as [H1 | H1].
  - split; [intros _; left; exact H1 | reflexivity].
  - destruct (Z.leb_spec (len + 64) capa) as [H2 | H2].
    + split; [intros _; right; lia | reflexivity].
    + split; [discriminate | intros [H | H]; lia].
Qed.

Lemma need_allocation_zero_copy_rule_witness :
  (need_allocation false 4096 8092 100 164 = false <->
     (8092 + 100 - 1) mod 4096 + SIMDJSON_PADDING < 4096
     \/ 164 >= 100 + SIMDJSON_PADDING)
  /\ need_allocation true 4096 8092 100 164 = true.
Proof.
  apply (need_allocation_zero_copy_rule 4096 8092 100 164); lia.
Defined.

(** Where a view of the host string's own bytes is returned and the
    string is not frozen, the call took the last branch with a capacity
    that already held the padding: every other branch freezes. *)
Lemma host_view_unfrozen_only_when_capacity_suffices (cfg : build_config)
  (str str' : RString) (v : padded_string_view) :
  simdjson_safe_view_from_mrb_string cfg str = Ok (str', v) ->
  borrows_host_bytes v = true ->
  mrb_frozen_p str' = false ->
  str' = str /\ mrb_frozen_p str = false /\
  RSTRING_LEN str + SIMDJSON_PADDING <= RSTRING_CAPA str.
Proof.
  unfold simdjson_safe_view_from_mrb_string.
  destruct (zero_copy_parsing cfg && _).
  - intros H _ Hf. inversion H; subst. discriminate Hf.
  - destruct (mrb_frozen_p str) eqn:Hfrozen.
    + intros H Hb _. inversion H; subst. discriminate Hb.
    + destruct (SIZE_MAX - SIMDJSON_PADDING <? wrap64 (RSTRING_LEN str));
        [discriminate |].
      destruct (Z.ltb_spec (RSTRING_CAPA str)
                  (RSTRING_LEN str + SIMDJSON_PADDING)) as [Hlt | Hge].
      * intros H _ Hf. inversion H; subst. discriminate Hf.
      * intros H _ _. inversion H; subst. repeat split; lia.
Qed.

Lemma host_view_unfrozen_only_when_capacity_suffices_lazy (cfg : build_config)
  (str str' : RString) (v : padded_string_view) :
  make_padded_string_view_from_ruby_str cfg str = Ok (str', v) ->
  borrows_host_bytes v = true ->
  mrb_frozen_p str' = false ->
  str' = str /\ mrb_frozen_p str = false /\
  RSTRING_LEN str + SIMDJSON_PADDING <= RSTRING_CAPA str.
Proof.
  unfold make_padded_string_view_from_ruby_str.
  destruct (zero_copy_parsing cfg && _).
  - intros H _ Hf. inversion H; subst. discriminate Hf.
  - destruct (mrb_frozen_p str) eqn:Hfrozen.
    + intros H Hb _. inversion H; subst. discriminate Hb.
    + destruct (SIZE_MAX - SIMDJSON_PADDING <? wrap64 (RSTRING_LEN str));
        [discriminate |].
      destruct (Z.ltb_spec (RSTRING_CAPA str)
                  (RSTRING_LEN str + SIMDJSON_PADDING)) as [Hlt | Hge].
      * intros H _ Hf. inversion H; subst. discriminate Hf.
      * intros H _ _. inversion H; subst. repeat split; lia.
Qed.

(** C6.  The claim fails on the code: with zero-copy parsing switched
    off, an unfrozen host string whose capacity already holds the padding
    reaches the last branch of both view builders, which returns a view
    of the string's own bytes and leaves the string unfrozen.  (Both
    builders freeze in the zero-copy branch and in the resize branch.) *)
Theorem unfrozen_string_viewed_when_capacity_suffices :
  let cfg := mkConfig false 4096 false (fun ptr _ => ptr) in
  let str := mkRString 8192 100 191 false in
  simdjson_safe_view_from_mrb_string cfg str
    = Ok (str, mkView (HostBytes 8192) 100 164)
  /\ make_padded_string_view_from_ruby_str cfg str
    = Ok (str, mkView (HostBytes 8192) 100 191)
  /\ mrb_frozen_p str = false.
Proof. repeat split. Qed.

(** ** LazyDocument *)

Section LazyDocumentFacts.
Variable P : Platform.
Variable E : OnDemand.

Lemma doc_get_alive (self : Document E) :
  is_alive E (cpp_doc self) = true ->
  mrb_json_doc_get P E self = (Ok tt, self).
Proof. intros H. unfold mrb_json_doc_get. rewrite H. reflexivity. Qed.

Lemma doc_get_rehydrated (self : Document E) (doc : document E) :
  is_alive E (cpp_doc self) = false ->
  iterate E (iv_parser self) (iv_view self) = sr_ok doc ->
  mrb_json_doc_get P E self
    = (Ok tt, set_cpp_doc (record_call call_iterate self) doc).
Proof.
  intros H Hi. unfold mrb_json_doc_get. rewrite H. simpl. rewrite Hi.
  reflexivity.
Qed.

Lemma doc_get_failed (self : Document E) (code : error_code) :
  is_alive E (cpp_doc self) = false ->
  iterate E (iv_parser self) (iv_view self) = sr_err code ->
  mrb_json_doc_get P E self
    = (raise_error P code, record_call call_iterate self).
Proof.
  intros H Hi. unfold mrb_json_doc_get. rewrite H. simpl. rewrite Hi.
  reflexivity.
Qed.

(** Every entry point is its body behind [mrb_json_doc_get]. *)
Lemma navigate_after_doc_get (call : navigation_call) (self : Document E) :
  navigate P E call self = after_doc_get P E (navigate_body P E call) self.
Proof. destruct call; reflexivity. Qed.

(** A body makes the call's one document operation, and no other call
    to the engine. *)
Lemma navigate_body_calls (call : navigation_call) (self : Document E) :
  engine_calls (snd (navigate_body P E call self))
  = engine_calls self ++
    match document_op P call with
    | Ok op => [op]
    | _ => []
    end.
Proof.
  assert (Hv : forall l s,
             engine_calls (snd (value_or_nil P E l s))
             = engine_calls s ++ [call_lookup l]).
  { intros l s. unfold value_or_nil, engine_lookup. simpl.
    destruct (fst (doc_lookup E (cpp_doc s) l)) as [val | code];
      [| destruct (is_lookup_miss code)]; reflexivity. }
  assert (Hf : forall l nf k d b s,
             engine_calls (snd (fetch_with P E l nf k d b s))
             = engine_calls s ++ [call_lookup l]).
  { intros l nf k d b s. unfold fetch_with, engine_lookup. simpl.
    destruct (fst (doc_lookup E (cpp_doc s) l)) as [val | code];
      [| destruct (is_lookup_miss code)]; reflexivity. }
  destruct call as [key | k d b | key | key | index | p | p | p b | b | b];
    simpl; try apply Hv.
  - unfold fetch_body, fetch_lookup.
    destruct k; simpl; try apply Hf;
      destruct (mrb_obj_as_string P _); simpl;
      try apply Hf; symmetry; apply app_nil_r.
  - unfold at_path_with_wildcard_body.
    destruct (fst (doc_at_path_with_wildcard E (cpp_doc self) p))
      as [values | code];
      [destruct b | destruct (is_lookup_miss code)]; reflexivity.
  - unfold array_each_body.
    destruct (fst (doc_get_array E (cpp_doc self))) as [array | code];
      [destruct b; [| destruct (count_elements array)] |]; reflexivity.
  - unfold object_each_body.
    destruct (fst (doc_get_object E (cpp_doc self))) as [object | code];
      [destruct b |]; reflexivity.
Qed.

(** C2.  A navigation call on a document whose cursor is not alive
    first re-runs [iterate] on the retained view and parser.  If that
    fails, the call raises that failure's error and no document
    operation is made on the stale cursor.  If it succeeds, the call
    runs once on the rehydrated document: the engine sees exactly the
    [iterate] followed by the call's one document operation. *)
Theorem navigation_rehydrates_then_runs_once
  (call : navigation_call) (self : Document E) :
  is_alive E (cpp_doc self) = false ->
  match iterate E (iv_parser self) (iv_view self) with
  | sr_err code =>
      navigate P E call self
      = (raise_error P code, record_call call_iterate self)
  | sr_ok doc =>
      navigate P E call self
      = navigate_body P E call
          (set_cpp_doc (record_call call_iterate self) doc)
      /\ engine_calls (snd (navigate P E call self))
         = engine_calls self ++
           call_iterate ::
           match document_op P call with
           | Ok op => [op]
           | _ => []
           end
  end.
Proof.
  intros Hdead. rewrite navigate_after_doc_get. unfold after_doc_get.
  destruct (iterate E (iv_parser self) (iv_view self)) as [doc | code] eqn:Hi.
  - rewrite (doc_get_rehydrated self doc Hdead Hi).
    split; [reflexivity |].
    rewrite navigate_body_calls. simpl. rewrite <- app_assoc. reflexivity.
  - rewrite (doc_get_failed self code Hdead Hi). reflexivity.
Qed.

(** The view and parser a document rehydrates from are the ones it was
    constructed with. *)
Lemma initialize_retains_view_and_parser (id : Z) (view_obj : padded_string_view)
  (parser_obj : parser E) (self : Document E) :
  mrb_json_doc_initialize P E id view_obj (Some parser_obj) = Ok self ->
  iv_view self = view_obj /\ iv_parser self = parser_obj.
Proof.
  unfold mrb_json_doc_initialize.
  destruct (iterate E parser_obj view_obj); [| discriminate].
  intros H. inversion H. split; reflexivity.
Qed.
End LazyDocumentFacts.

Lemma navigation_rehydrates_then_runs_once_witness :
  let fresh :=
    mkScript true (fun _ => sr_ok ov_null) (fun _ => sr_ok [])
      (sr_err INCORRECT_TYPE) (sr_err INCORRECT_TYPE) in
  let P := plain_platform in
  let E := scripted_engine (sr_ok fresh) in
  let self := scripted_document (sr_ok fresh) empty_script in
  navigate P E (nav_at 0) self
  = navigate_body P E (nav_at 0) (set_cpp_doc (record_call call_iterate self) fresh)
  /\ engine_calls (snd (navigate P E (nav_at 0) self))
     = [call_iterate; call_lookup (by_index 0)].
Proof.
  exact (navigation_rehydrates_then_runs_once plain_platform
           (scripted_engine
              (sr_ok (mkScript true (fun _ => sr_ok ov_null) (fun _ => sr_ok [])
                        (sr_err INCORRECT_TYPE) (sr_err INCORRECT_TYPE))))
           (nav_at 0)
           (scripted_document _ empty_script)
           eq_refl).
Defined.

Section LookupFacts.
Variable P : Platform.
Variable E : OnDemand.

Lemma code_of_err {A : Type} (r : simdjson_result A) (code : error_code) :
  code_of r = Some code -> r = sr_err code.
Proof. destruct r; simpl; intros H; inversion H; reflexivity. Qed.

Lemma fetch_with_miss (l : lookup) (not_found : mrb_exc)
  (key_or_index : mrb_value) (default_val : option mrb_value)
  (block : mrb_block) (self : Document E) (code : error_code) :
  fst (doc_lookup E (cpp_doc self) l) = sr_err code ->
  is_lookup_miss code = true ->
  fst (fetch_with P E l not_found key_or_index default_val block self)
  = fetch_miss not_found key_or_index default_val block.
Proof.
  intros Hr Hm. unfold fetch_with, engine_lookup. simpl.
  rewrite Hr, Hm. reflexivity.
Qed.

(** C3.  On a lookup miss [fetch] returns the default if one was
    supplied; otherwise it calls the block, if one was supplied, and
    returns its result; with neither it raises the not-found error
    (IndexError for an integer index, KeyError for a key).  On a miss
    [doc[key]] returns nil. *)
Theorem fetch_miss_resolves_by_priority
  (key_or_index : mrb_value) (default_val : option mrb_value)
  (block : mrb_block) (l : lookup) (key : string) (self : Document E) :
  (fetch_lookup P key_or_index = Ok l ->
   lookup_misses P E self l = true ->
   fst (mrb_json_doc_fetch P E key_or_index default_val block self) =
     match default_val with
     | Some d => Ok d
     | None =>
         match block with
         | Some yield => yield [key_or_index]
         | None =>
             match key_or_index with
             | mrb_int_value _ => Raise (Exc E_INDEX_ERROR "index not found")
             | _ => Raise (Exc E_KEY_ERROR "key not found")
             end
         end
     end)
  /\ (lookup_misses P E self (by_key key) = true ->
      fst (mrb_json_doc_aref P E (mrb_str_value key) self) = Ok mrb_nil_value).
Proof.
  unfold lookup_misses, mrb_json_doc_fetch, mrb_json_doc_aref, after_doc_get.
  simpl get_args_S. cbv iota.
  destruct (mrb_json_doc_get P E self) as [[u | e | c] self1];
    try (split; intros; discriminate).
  split.
  - intros Hl Hmiss.
    destruct (fst (doc_lookup E (cpp_doc self1) l)) as [val | code] eqn:Hr;
      [discriminate |].
    unfold fetch_body, fetch_lookup in *.
    destruct key_or_index; simpl in Hl;
      try (destruct (mrb_obj_as_string P _) as [key_str | e | c];
           simpl in Hl; try discriminate);
      inversion Hl; subst l;
      rewrite (fetch_with_miss _ _ _ _ _ _ code Hr Hmiss);
      destruct default_val, block; reflexivity.
  - intros Hmiss. unfold value_or_nil, engine_lookup. simpl.
    destruct (fst (doc_lookup E (cpp_doc self1) (by_key key))) as [val | code];
      [discriminate |].
    rewrite Hmiss. reflexivity.
Qed.

Lemma push_each_complete (values : list ondemand_value) :
  forall (acc : list mrb_value) (ary : mrb_value),
    push_each P values acc = Ok ary ->
    exists xs,
      ary = mrb_ary_value (acc ++ xs) /\
      Forall2 (fun v x => convert_ondemand_value_to_mrb P v = Ok x) values xs.
Proof.
  induction values as [| v rest IH]; intros acc ary H; simpl in H.
  - inversion H. exists []. rewrite app_nil_r. split; constructor.
  - destruct (convert_ondemand_value_to_mrb P v) as [x | e | c] eqn:Hv;
      simpl in H; try discriminate.
    destruct (IH _ _ H) as [xs [Hary Hall]].
    exists (x :: xs). rewrite <- app_assoc in Hary. split; [exact Hary |].
    constructor; assumption.
Qed.

(** C4 as the code has it.  When the engine answers the wildcard query
    with an error, a lookup-miss code gives nil and any other code
    raises its error at once.  When it answers with matches and no
    block is given, no matches give the empty array, and an array is
    returned only complete: one converted element per match, in
    order. *)
Theorem wildcard_miss_is_nil_failure_raises
  (path_val : string) (block : mrb_block) (self self1 : Document E) :
  mrb_json_doc_get P E self = (Ok tt, self1) ->
  let out := fst (mrb_json_doc_at_path_with_wildcard P E path_val block self) in
  match fst (doc_at_path_with_wildcard E (cpp_doc self1) path_val) with
  | sr_err code =>
      out = if is_lookup_miss code then Ok mrb_nil_value
            else raise_error P code
  | sr_ok values =>
      block = None ->
      (values = [] -> out = Ok (mrb_ary_value []))
      /\ (forall ary, out = Ok ary ->
            exists xs,
              ary = mrb_ary_value xs /\
              Forall2 (fun v x => convert_ondemand_value_to_mrb P v = Ok x)
                values xs)
  end.
Proof.
  intros Hget out. subst out.
  unfold mrb_json_doc_at_path_with_wildcard, after_doc_get.
  rewrite Hget. unfold at_path_with_wildcard_body.
  destruct (fst (doc_at_path_with_wildcard E (cpp_doc self1) path_val))
    as [values | code].
  - intros Hb. subst block. simpl. split.
    + intros Hv. subst values. reflexivity.
    + intros ary H. destruct (push_each_complete values [] ary H) as [xs [H1 H2]].
      exists xs. split; assumption.
  - destruct (is_lookup_miss code); reflexivity.
Qed.

(** A navigation call whose document operation the engine answers with
    a code that is not a lookup miss raises that code's error. *)
Lemma navigation_raises_engine_failure (call : navigation_call)
  (self self1 : Document E) (op : engine_call) (code : error_code) :
  mrb_json_doc_get P E self = (Ok tt, self1) ->
  document_op P call = Ok op ->
  engine_answer E op (cpp_doc self1) = Some code ->
  is_lookup_miss code = false ->
  fst (navigate P E call self) = raise_error P code.
Proof.
  intros Hget Hop Hans Hmiss.
  rewrite navigate_after_doc_get. unfold after_doc_get. rewrite Hget.
  assert (Hv : forall l,
             code_of (fst (doc_lookup E (cpp_doc self1) l)) = Some code ->
             fst (value_or_nil P E l self1) = raise_error P code).
  { intros l H. apply code_of_err in H.
    unfold value_or_nil, engine_lookup. simpl. rewrite H, Hmiss. reflexivity. }
  assert (Hf : forall l nf k d b,
             code_of (fst (doc_lookup E (cpp_doc self1) l)) = Some code ->
             fst (fetch_with P E l nf k d b self1) = raise_error P code).
  { intros l nf k d b H. apply code_of_err in H.
    unfold fetch_with, engine_lookup. simpl. rewrite H, Hmiss. reflexivity. }
  destruct call as [key | k d b | key | key | index | p | p | p b | b | b];
    simpl in Hop; simpl navigate_body;
    try (inversion Hop; subst op; simpl in Hans; apply Hv; exact Hans).
  - unfold fetch_body, fetch_lookup in *.
    destruct k; simpl in Hop;
      try (destruct (mrb_obj_as_string P _) as [key_str | e | c];
           simpl in Hop; try discriminate);
      inversion Hop; subst op; simpl in Hans; apply Hf; exact Hans.
  - inversion Hop; subst op. simpl in Hans. apply code_of_err in Hans.
    unfold at_path_with_wildcard_body. rewrite Hans, Hmiss. reflexivity.
  - inversion Hop; subst op. simpl in Hans. apply code_of_err in Hans.
    unfold array_each_body. rewrite Hans. reflexivity.
  - inversion Hop; subst op. simpl in Hans. apply code_of_err in Hans.
    unfold object_each_body. rewrite Hans. reflexivity.
Qed.

Lemma raised_error_carries_engine_message (code : error_code) :
  code <> MEMALLOC ->
  exists cls,
    raise_simdjson_error (error_message P) code
    = Exc cls (error_message P code).
Proof.
  intros H. unfold raise_simdjson_error.
  destruct code; simpl; try (eexists; reflexivity). contradiction.
Qed.

Lemma object_each_yield_field_error
  (yield : list mrb_value -> mrb_result mrb_value)
  (pre : list ondemand_field) (bad : ondemand_field)
  (post : list ondemand_field) (code : error_code) :
  field_key_value bad = sr_err code ->
  object_each_yield P yield pre = Ok tt ->
  object_each_yield P yield (pre ++ bad :: post) = raise_error P code.
Proof.
  intros Hbad. induction pre as [| f pre IH]; simpl; intros Hpre.
  - rewrite Hbad. reflexivity.
  - destruct (field_key_value f) as [[k v] | c]; [| discriminate].
    destruct (convert_ondemand_value_to_mrb P v) as [val | e | c];
      simpl in *; try discriminate.
    destruct (yield [mrb_str_value k; val]); simpl in *; try discriminate.
    apply IH. exact Hpre.
Qed.

Lemma convert_object_fields_field_error
  (pre : list ondemand_field) (bad : ondemand_field)
  (post : list ondemand_field) (code : error_code) :
  field_key_value bad = sr_err code ->
  forall hash out,
    convert_object_fields P (convert_ondemand_value_to_mrb P) pre hash = Ok out ->
    convert_object_fields P (convert_ondemand_value_to_mrb P)
      (pre ++ bad :: post) hash = raise_error P code.
Proof.
  intros Hbad. induction pre as [| [key value] pre IH]; simpl; intros hash out Hpre.
  - destruct bad as [key value]. unfold field_key_value in Hbad. simpl in Hbad.
    destruct key as [k | c]; [destruct value as [v | c] |];
      inversion Hbad; reflexivity.
  - destruct key as [k | c]; [| discriminate].
    destruct value as [v | c]; [| discriminate].
    destruct (convert_ondemand_value_to_mrb P v) as [val | e | c];
      simpl in *; try discriminate.
    eapply IH. exact Hpre.
Qed.
End LookupFacts.

(** C7 as the code has it.  A lookup-miss code is answered with nil by
    the plain lookups and the wildcard query, and with the
    default/fallback/not-found resolution by [fetch]; any other code the
    engine answers a navigation call with is raised.  The raised error
    carries the engine's message text, except for MEMALLOC, which raises
    the host's out-of-memory exception.  A failing field raises likewise
    during object enumeration with a block and during the
    materialization of a nested object. *)
Theorem only_lookup_misses_are_swallowed (P : Platform) (E : OnDemand) :
  (forall call (self self1 : Document E) op code,
      returns_nil_on_miss call = true ->
      mrb_json_doc_get P E self = (Ok tt, self1) ->
      document_op P call = Ok op ->
      engine_answer E op (cpp_doc self1) = Some code ->
      is_lookup_miss code = true ->
      fst (navigate P E call self) = Ok mrb_nil_value)
  /\ (forall call (self self1 : Document E) op code,
      mrb_json_doc_get P E self = (Ok tt, self1) ->
      document_op P call = Ok op ->
      engine_answer E op (cpp_doc self1) = Some code ->
      is_lookup_miss code = false ->
      fst (navigate P E call self)
      = Raise (raise_simdjson_error (error_message P) code))
  /\ (forall code,
      code <> MEMALLOC ->
      exists cls,
        raise_simdjson_error (error_message P) code
        = Exc cls (error_message P code))
  /\ raise_simdjson_error (error_message P) MEMALLOC = NoMemErr
  /\ (forall yield pre bad post code,
      field_key_value bad = sr_err code ->
      object_each_yield P yield pre = Ok tt ->
      object_each_yield P yield (pre ++ bad :: post)
      = Raise (raise_simdjson_error (error_message P) code))
  /\ (forall pre bad post code out,
      field_key_value bad = sr_err code ->
      convert_ondemand_value_to_mrb P (ov_object (sr_ok false) pre) = Ok out ->
      convert_ondemand_value_to_mrb P (ov_object (sr_ok false) (pre ++ bad :: post))
      = Raise (raise_simdjson_error (error_message P) code)).
Proof.
  split; [| split; [| split; [| split; [| split]]]].
  - intros call self self1 op code Hnil Hget Hop Hans Hmiss.
    rewrite navigate_after_doc_get. unfold after_doc_get. rewrite Hget.
    destruct call as [key | k d b | key | key | index | p | p | p b | b | b];
      try discriminate Hnil; simpl in Hop; inversion Hop; subst op;
      simpl in Hans; apply code_of_err in Hans; simpl navigate_body;
      unfold value_or_nil, engine_lookup, at_path_with_wildcard_body; simpl;
      rewrite Hans, Hmiss; reflexivity.
  - intros call self self1 op code.
    apply navigation_raises_engine_failure.
  - apply raised_error_carries_engine_message.
  - reflexivity.
  - intros yield pre bad post code.
    apply object_each_yield_field_error.
  - intros pre bad post code out Hbad Hpre. simpl in *.
    eapply convert_object_fields_field_error; eassumption.
Qed.

Lemma only_lookup_misses_are_swallowed_witness :
  let answers :=
    mkScript true
      (fun l => match l with
                | by_key _ => sr_err TAPE_ERROR
                | _ => sr_err NO_SUCH_FIELD
                end)
      (fun _ => sr_ok []) (sr_err INCORRECT_TYPE) (sr_err INCORRECT_TYPE) in
  let E := scripted_engine (sr_ok answers) in
  let self := scripted_document (sr_ok answers) answers in
  fst (navigate plain_platform E (nav_aref "a") self)
  = Raise (Exc E_JSON_TAPE_ERROR "engine message")
  /\ fst (navigate plain_platform E (nav_at_pointer "/a") self) = Ok mrb_nil_value.
Proof.
  intros answers E self.
  pose proof (only_lookup_misses_are_swallowed plain_platform E)
    as [Hnil [Hraise _]].
  split.
  - exact (Hraise (nav_aref "a") self self (call_lookup (by_key "a")) TAPE_ERROR
             eq_refl eq_refl eq_refl eq_refl).
  - exact (Hnil (nav_at_pointer "/a") self self (call_lookup (by_pointer "/a"))
             NO_SUCH_FIELD eq_refl eq_refl eq_refl eq_refl eq_refl).
Defined.

(** C7 as stated fails for MEMALLOC: when the engine answers a lookup
    with it, the raised error is the host's out-of-memory exception and
    carries no engine message. *)
Lemma memalloc_raises_without_engine_message :
  let answers :=
    mkScript true (fun _ => sr_err MEMALLOC) (fun _ => sr_err MEMALLOC)
      (sr_err MEMALLOC) (sr_err MEMALLOC) in
  fst (mrb_json_doc_aref plain_platform (scripted_engine (sr_ok answers))
         (mrb_str_value "a") (scripted_document (sr_ok answers) answers))
  = Raise NoMemErr
  /\ error_message plain_platform MEMALLOC = "engine message"%string.
Proof. split; reflexivity. Qed.

(** Outside the amended C7: without a block, [object_each] has no [else]
    for a failing field, so the field is skipped and the hash built from
    the others is returned. *)
Lemma object_each_collect_skips_failed_field (P : Platform)
  (pre : list ondemand_field) (bad : ondemand_field)
  (post : list ondemand_field) (code : error_code) :
  field_key_value bad = sr_err code ->
  forall hash,
    object_each_collect P (pre ++ bad :: post) hash
    = object_each_collect P (pre ++ post) hash.
Proof.
  intros Hbad. induction pre as [| f pre IH]; simpl; intros hash.
  - rewrite Hbad. reflexivity.
  - destruct (field_key_value f) as [[k v] | c]; [| apply IH].
    destruct (convert_ondemand_value_to_mrb P v); simpl; try reflexivity.
    apply IH.
Qed.

(** The same document, [{"a":1 "b":2}] with its missing comma, read with
    and without a block. *)
Lemma object_each_swallows_tape_error_without_block :
  let one := ov_number (sr_ok (signed_integer 1)) "1" in
  let object := [(sr_ok "a"%string, sr_ok one); (sr_err TAPE_ERROR, sr_err TAPE_ERROR)] in
  let answers :=
    mkScript true (fun _ => sr_err INCORRECT_TYPE) (fun _ => sr_err INCORRECT_TYPE)
      (sr_err INCORRECT_TYPE) (sr_ok object) in
  let E := scripted_engine (sr_ok answers) in
  let self := scripted_document (sr_ok answers) answers in
  fst (mrb_json_doc_object_each plain_platform E None self)
  = Ok (mrb_hash_value [(mrb_str_value "a", mrb_int_value 1)])
  /\ fst (mrb_json_doc_object_each plain_platform E (Some (fun _ => Ok mrb_nil_value)) self)
  = Raise (Exc E_JSON_TAPE_ERROR "engine message").
Proof. split; reflexivity. Qed.

(** C9 as the code has it.  [doc[arg]] takes a String key: it returns
    the addressed value, nil on a lookup miss, and raises any other
    engine error.  Any other argument, an Integer index included, is
    refused with a TypeError before the document is consulted. *)
Theorem aref_takes_string_keys_only (P : Platform) (E : OnDemand)
  (arg : mrb_value) (self : Document E) :
  match arg with
  | mrb_str_value key =>
      forall self1,
        mrb_json_doc_get P E self = (Ok tt, self1) ->
        fst (mrb_json_doc_aref P E arg self) =
          match fst (doc_lookup E (cpp_doc self1) (by_key key)) with
          | sr_ok val => convert_ondemand_value_to_mrb P val
          | sr_err code =>
              if is_lookup_miss code then Ok mrb_nil_value
              else raise_error P code
          end
  | _ =>
      mrb_json_doc_aref P E arg self
      = (Raise (Exc E_TYPE_ERROR (get_args_type_message P arg)), self)
  end.
Proof.
  destruct arg; try reflexivity.
  intros self1 Hget. unfold mrb_json_doc_aref. simpl get_args_S. cbv iota.
  unfold after_doc_get. rewrite Hget.
  unfold value_or_nil, engine_lookup. simpl.
  destruct (fst (doc_lookup E (cpp_doc self1) (by_key s))) as [val | code];
    [| destruct (is_lookup_miss code)]; reflexivity.
Qed.

Lemma aref_takes_string_keys_only_witness :
  let ten := ov_number (sr_ok (signed_integer 10)) "10" in
  let answers :=
    mkScript true
      (fun l => match l with
                | by_key "a" => sr_ok ten
                | _ => sr_err NO_SUCH_FIELD
                end)
      (fun _ => sr_ok []) (sr_err INCORRECT_TYPE) (sr_err INCORRECT_TYPE) in
  let E := scripted_engine (sr_ok answers) in
  let self := scripted_document (sr_ok answers) answers in
  fst (mrb_json_doc_aref plain_platform E (mrb_str_value "a") self)
  = Ok (mrb_int_value 10)
  /\ fst (mrb_json_doc_aref plain_platform E (mrb_str_value "b") self)
  = Ok mrb_nil_value.
Proof.
  intros ten answers E self. split.
  - exact (aref_takes_string_keys_only plain_platform E (mrb_str_value "a") self
             self eq_refl).
  - exact (aref_takes_string_keys_only plain_platform E (mrb_str_value "b") self
             self eq_refl).
Defined.

(** C9 as stated fails: on a document that is the array [[10]], the
    integer index 0 is refused by [doc[0]] with a TypeError, while
    [fetch(0)] returns the element. *)
Lemma aref_refuses_integer_index :
  let ten := ov_number (sr_ok (signed_integer 10)) "10" in
  let answers :=
    mkScript true
      (fun l => match l with
                | by_index 0 => sr_ok ten
                | _ => sr_err INCORRECT_TYPE
                end)
      (fun _ => sr_ok []) (sr_ok (mkArray (sr_ok 1) [sr_ok ten]))
      (sr_err INCORRECT_TYPE) in
  let E := scripted_engine (sr_ok answers) in
  let self := scripted_document (sr_ok answers) answers in
  fst (mrb_json_doc_aref plain_platform E (mrb_int_value 0) self)
  = Raise (Exc E_TYPE_ERROR "cannot be converted to String")
  /\ fst (mrb_json_doc_fetch plain_platform E (mrb_int_value 0) None None self)
  = Ok (mrb_int_value 10).
Proof. split; reflexivity. Qed.

Lemma fetch_miss_resolves_by_priority_witness :
  let answers :=
    mkScript true (fun _ => sr_err NO_SUCH_FIELD) (fun _ => sr_ok [])
      (sr_err INCORRECT_TYPE) (sr_err INCORRECT_TYPE) in
  let E := scripted_engine (sr_ok answers) in
  let self := scripted_document (sr_ok answers) answers in
  let missing := mrb_str_value "missing" in
  let twice := fun args : list mrb_value => Ok (mrb_ary_value (args ++ args)) in
  fst (mrb_json_doc_fetch plain_platform E missing (Some (mrb_int_value 7)) (Some twice) self)
  = Ok (mrb_int_value 7)
  /\ fst (mrb_json_doc_fetch plain_platform E missing None (Some twice) self)
  = Ok (mrb_ary_value [missing; missing])
  /\ fst (mrb_json_doc_fetch plain_platform E missing None None self)
  = Raise (Exc E_KEY_ERROR "key not found")
  /\ fst (mrb_json_doc_aref plain_platform E missing self) = Ok mrb_nil_value.
Proof.
  intros answers E self missing twice.
  split; [| split; [| split]].
  - exact (proj1 (fetch_miss_resolves_by_priority plain_platform E missing
                    (Some (mrb_int_value 7)) (Some twice) (by_key "missing")
                    "missing" self) eq_refl eq_refl).
  - exact (proj1 (fetch_miss_resolves_by_priority plain_platform E missing
                    None (Some twice) (by_key "missing") "missing" self)
             eq_refl eq_refl).
  - exact (proj1 (fetch_miss_resolves_by_priority plain_platform E missing
                    None None (by_key "missing") "missing" self)
             eq_refl eq_refl).
  - exact (proj2 (fetch_miss_resolves_by_priority plain_platform E missing
                    None None (by_key "missing") "missing" self) eq_refl).
Defined.

Lemma wildcard_miss_is_nil_failure_raises_witness :
  let one := ov_number (sr_ok (signed_integer 1)) "1" in
  let two := ov_number (sr_ok (signed_integer 2)) "2" in
  let answers :=
    mkScript true (fun _ => sr_err NO_SUCH_FIELD)
      (fun p => if String.eqb p "a.*.x" then sr_ok [one; two] else sr_ok [])
      (sr_err INCORRECT_TYPE) (sr_err INCORRECT_TYPE) in
  let E := scripted_engine (sr_ok answers) in
  let self := scripted_document (sr_ok answers) answers in
  fst (mrb_json_doc_at_path_with_wildcard plain_platform E "b.*" None self)
  = Ok (mrb_ary_value []).
Proof.
  intros one two answers E self.
  exact (proj1 (wildcard_miss_is_nil_failure_raises plain_platform E "b.*" None
                  self self eq_refl eq_refl) eq_refl).
Defined.

(** C4 as stated fails: a wildcard query the engine answers with
    NO_SUCH_FIELD returns nil, not an empty array. *)
Lemma wildcard_lookup_miss_returns_nil :
  let answers :=
    mkScript true (fun _ => sr_err NO_SUCH_FIELD) (fun _ => sr_err NO_SUCH_FIELD)
      (sr_err INCORRECT_TYPE) (sr_err INCORRECT_TYPE) in
  fst (mrb_json_doc_at_path_with_wildcard plain_platform
         (scripted_engine (sr_ok answers)) "a.*.x" None
         (scripted_document (sr_ok answers) answers))
  = Ok mrb_nil_value.
Proof. reflexivity. Qed.

(** ** Encoder *)

(** Induction on a host value through its arrays and hashes. *)
Section MrbValueInduction.
Variable Q : mrb_value -> Prop.
Hypothesis Hleaf :
  forall v,
    match v with
    | mrb_ary_value _ | mrb_hash_value _ => False
    | _ => True
    end -> Q v.
Hypothesis Hary : forall items, Forall Q items -> Q (mrb_ary_value items).
Hypothesis Hhash :
  forall entries,
    Forall (fun kv => Q (snd kv)) entries -> Q (mrb_hash_value entries).

Fixpoint mrb_value_nested_ind (v : mrb_value) : Q v :=
  match v with
  | mrb_ary_value items =>
      Hary items
        ((fix all (l : list mrb_value) : Forall Q l :=
            match l with
            | [] => Forall_nil Q
            | x :: rest => Forall_cons x (mrb_value_nested_ind x) (all rest)
            end) items)
  | mrb_hash_value entries =>
      Hhash entries
        ((fix all (l : list (mrb_value * mrb_value))
            : Forall (fun kv => Q (snd kv)) l :=
            match l with
            | [] => Forall_nil _
            | kv :: rest =>
                Forall_cons kv (mrb_value_nested_ind (snd kv)) (all rest)
            end) entries)
  | mrb_nil_value => Hleaf mrb_nil_value I
  | mrb_false_value => Hleaf mrb_false_value I
  | mrb_true_value => Hleaf mrb_true_value I
  | mrb_undef_value => Hleaf mrb_undef_value I
  | mrb_symbol_value name => Hleaf (mrb_symbol_value name) I
  | mrb_float_value d => Hleaf (mrb_float_value d) I
  | mrb_int_value i => Hleaf (mrb_int_value i) I
  | mrb_str_value sv => Hleaf (mrb_str_value sv) I
  | mrb_bigint_value z => Hleaf (mrb_bigint_value z) I
  | mrb_obj_value t id => Hleaf (mrb_obj_value t id) I
  end.
End MrbValueInduction.

Lemma decimal_inj (z1 z2 : Z) : decimal z1 = decimal z2 -> z1 = z2.
Proof.
  unfold decimal. intros H.
  apply (f_equal NilEmpty.int_of_string) in H.
  rewrite !NilEmpty.isi in H. inversion H as [H'].
  apply (f_equal Z.of_int) in H'. rewrite !DecimalZ.of_to in H'. exact H'.
Qed.

Lemma to_mrb_int_range (z : Z) : MRB_INT_MIN <= to_mrb_int z <= MRB_INT_MAX.
Proof.
  unfold to_mrb_int, MRB_INT_MIN, MRB_INT_MAX.
  pose proof (Z.mod_pos_bound (z + 2 ^ 63) (2 ^ 64) ltac:(lia)). lia.
Qed.

Lemma to_mrb_int_id (z : Z) :
  MRB_INT_MIN <= z <= MRB_INT_MAX -> to_mrb_int z = z.
Proof.
  unfold to_mrb_int, MRB_INT_MIN, MRB_INT_MAX. intros H.
  rewrite Z.mod_small by lia. lia.
Qed.

Lemma append_empty (s : string) : (s ++ "")%string = s.
Proof. induction s as [| a s IH]; simpl; [| rewrite IH]; reflexivity. Qed.

Section EncoderFacts.
Variable P : Platform.

Lemma view_app (b1 b2 : string_builder) :
  view P (b1 ++ b2) = (view P b1 ++ view P b2)%string.
Proof.
  induction b1 as [| c b1 IH]; simpl; [reflexivity |].
  rewrite IH. 
  generalize (text_of_call P c) as t. intros t.
  induction t as [| a t IHt]; simpl; [| rewrite IHt]; reflexivity.
Qed.

(** Encoding only appends to the builder. *)
Lemma json_encode_extends (v : mrb_value) :
  forall b b', json_encode P v b = Ok b' -> exists ext, b' = b ++ ext.
Proof.
  induction v as [v Hv | items IH | entries IH] using mrb_value_nested_ind.
  - intros b b' H.
    destruct v; try contradiction; simpl in H;
      try (inversion H; eexists; reflexivity);
      destruct (mrb_obj_as_string P _); simpl in H; inversion H;
      eexists; reflexivity.
  - intros b b' H. simpl in H.
    destruct items as [| item0 rest].
    + inversion H. rewrite <- app_assoc. eexists; reflexivity.
    + inversion IH as [| ? ? H0 Hrest]; subst.
      destruct (json_encode P item0 (b ++ [start_array])) as [b1 | |] eqn:E0;
        simpl in H; try discriminate.
      destruct (H0 _ _ E0) as [ext0 ->].
      assert (Hloop : forall l, Forall (fun v => forall b b',
                   json_encode P v b = Ok b' -> exists ext, b' = b ++ ext) l ->
                 forall c c', encode_from_second (json_encode P) l c = Ok c' ->
                 exists ext, c' = c ++ ext).
      { induction l as [| x l IHl]; intros Hall c c' Hc; simpl in Hc.
        - inversion Hc. exists []. rewrite app_nil_r. reflexivity.
        - inversion Hall as [| ? ? Hx Hl]; subst.
          destruct (json_encode P x (c ++ [append_comma])) as [c1 | |] eqn:Ex;
            simpl in Hc; try discriminate.
          destruct (Hx _ _ Ex) as [e1 ->].
          destruct (IHl Hl _ _ Hc) as [e2 ->].
          rewrite <- !app_assoc. eexists; reflexivity. }
      destruct (encode_from_second (json_encode P) rest _) as [b2 | |] eqn:E1;
        simpl in H; try discriminate.
      destruct (Hloop rest Hrest _ _ E1) as [ext1 ->].
      inversion H. rewrite <- !app_assoc. eexists; reflexivity.
  - intros b b' H. simpl in H.
    assert (Hloop : forall l, Forall (fun kv => forall b b',
                 json_encode P (snd kv) b = Ok b' -> exists ext, b' = b ++ ext) l ->
               forall first c c',
                 dump_hash_each P (json_encode P) l first c = Ok c' ->
                 exists ext, c' = c ++ ext).
    { induction l as [| [k x] l IHl]; intros Hall first c c' Hc; simpl in Hc.
      - inversion Hc. exists []. rewrite app_nil_r. reflexivity.
      - inversion Hall as [| ? ? Hx Hl]; subst. simpl in Hx.
        destruct (mrb_obj_as_string P k) as [ks | |]; simpl in Hc;
          try discriminate.
        unfold json_encode_string in Hc.
        destruct (json_encode P x _) as [c1 | |] eqn:Ex; simpl in Hc;
          try discriminate.
        destruct (Hx _ _ Ex) as [e1 ->].
        destruct (IHl Hl _ _ _ Hc) as [e2 ->].
        destruct first; rewrite <- !app_assoc; eexists; reflexivity. }
    destruct (dump_hash_each P (json_encode P) entries true _) as [b1 | |] eqn:E1;
      simpl in H; try discriminate.
    destruct (Hloop entries IH _ _ _ E1) as [ext1 ->].
    inversion H. rewrite <- !app_assoc. eexists; reflexivity.
Qed.

(** C10.  A value whose type is none of nil/false, true, integer,
    float, string, symbol, array and hash takes the [default] branch:
    it is converted with [mrb_obj_as_string] and the result is written
    by [escape_and_append_with_quotes].  [dump] then returns the quoted,
    escaped text, or the UTF-8 error when the text does not validate;
    no type error is raised when the conversion returns. *)
Theorem dump_stringifies_other_types (v : mrb_value) :
  ~ In (mrb_type v)
      [MRB_TT_FALSE; MRB_TT_TRUE; MRB_TT_INTEGER; MRB_TT_FLOAT;
       MRB_TT_STRING; MRB_TT_SYMBOL; MRB_TT_ARRAY; MRB_TT_HASH] ->
  (forall builder,
      json_encode P v builder =
        (sv <- mrb_obj_as_string P v ;;
         Ok (builder ++ [escape_and_append_with_quotes sv])))
  /\ (forall sv,
      mrb_obj_as_string P v = Ok sv ->
      let text := (quote ++ escape P sv ++ quote)%string in
      mrb_json_dump P v =
        (if validate_unicode P text then Ok text
         else Raise (Exc E_JSON_UTF8_ERROR "invalid utf-8"))
      /\ forall msg, mrb_json_dump P v <> Raise (Exc E_TYPE_ERROR msg)).
Proof.
  intros Hty.
  assert (Henc : forall builder,
             json_encode P v builder =
               (sv <- mrb_obj_as_string P v ;;
                Ok (builder ++ [escape_and_append_with_quotes sv]))).
  { intros builder. destruct v; simpl in Hty; try reflexivity;
      exfalso; apply Hty; tauto. }
  split; [exact Henc |].
  intros sv Hsv text.
  assert (Hdump : mrb_json_dump P v =
                    (if validate_unicode P text then Ok text
                     else Raise (Exc E_JSON_UTF8_ERROR "invalid utf-8"))).
  { unfold mrb_json_dump. rewrite Henc, Hsv. simpl.
    rewrite !append_empty. reflexivity. }
  split; [exact Hdump |].
  intros msg. rewrite Hdump.
  destruct (validate_unicode P text); discriminate.
Qed.

Lemma encode_from_second_extends (items : list mrb_value) :
  forall b b',
    encode_from_second (json_encode P) items b = Ok b' ->
    exists ext, b' = b ++ ext.
Proof.
  induction items as [| x rest IH]; intros b b' H; simpl in H.
  - inversion H. exists []. rewrite app_nil_r. reflexivity.
  - destruct (json_encode P x _) as [b1 | |] eqn:Ex; simpl in H;
      try discriminate.
    destruct (json_encode_extends _ _ _ Ex) as [e1 ->].
    destruct (IH _ _ H) as [e2 ->].
    rewrite <- !app_assoc. eexists; reflexivity.
Qed.

Lemma dump_hash_each_extends (entries : list (mrb_value * mrb_value)) :
  forall first b b',
    dump_hash_each P (json_encode P) entries first b = Ok b' ->
    exists ext, b' = b ++ ext.
Proof.
  induction entries as [| [k x] rest IH]; intros first b b' H; simpl in H.
  - inversion H. exists []. rewrite app_nil_r. reflexivity.
  - destruct (mrb_obj_as_string P k) as [ks | |]; simpl in H;
      try discriminate.
    unfold json_encode_string in H.
    destruct (json_encode P x _) as [b1 | |] eqn:Ex; simpl in H;
      try discriminate.
    destruct (json_encode_extends _ _ _ Ex) as [e1 ->].
    destruct (IH _ _ _ H) as [e2 ->].
    destruct first; rewrite <- !app_assoc; eexists; reflexivity.
Qed.

(** C8.  Whatever host value the parse of [9223372036854775808] yields,
    [dump] writes the bare digits only for a Float: an Integer holds an
    [mrb_int], at most 2^63 - 1, and every other type -- a big integer
    included -- is written between quotes by the [default] branch. *)
Theorem dump_writes_2_63_only_for_a_float (v : mrb_value) :
  mrb_json_dump P v = Ok "9223372036854775808"%string ->
  mrb_type v = MRB_TT_FLOAT.
Proof.
  unfold mrb_json_dump.
  destruct (json_encode P v []) as [sb | |] eqn:He; simpl; try discriminate.
  destruct (validate_unicode P (view P sb)); [| discriminate].
  intros H. inversion H as [Hview]. clear H.
  destruct v; simpl in He; try reflexivity;
    try (inversion He; subst sb; simpl in Hview; discriminate Hview);
    try (destruct (mrb_obj_as_string P _); simpl in He; inversion He; subst sb;
         simpl in Hview; discriminate Hview).
  - inversion He; subst sb. simpl in Hview. rewrite append_empty in Hview.
    change "9223372036854775808"%string with (decimal (2 ^ 63)) in Hview.
    apply decimal_inj in Hview.
    pose proof (to_mrb_int_range i) as Hr. unfold MRB_INT_MAX in Hr. lia.
  - destruct items as [| item0 rest].
    + inversion He; subst sb. simpl in Hview. discriminate Hview.
    + destruct (json_encode P item0 _) as [b1 | |] eqn:E0; simpl in He;
        try discriminate.
      destruct (json_encode_extends _ _ _ E0) as [e0 ->].
      destruct (encode_from_second (json_encode P) rest _) as [b2 | |] eqn:E1;
        simpl in He; try discriminate.
      destruct (encode_from_second_extends _ _ _ E1) as [e1 ->].
      inversion He; subst sb. simpl in Hview. discriminate Hview.
  - destruct (dump_hash_each P (json_encode P) entries true _) as [b1 | |] eqn:E1;
      simpl in He; try discriminate.
    destruct (dump_hash_each_extends _ _ _ _ E1) as [e1 ->].
    inversion He; subst sb. simpl in Hview. discriminate Hview.
Qed.
End EncoderFacts.

Lemma dump_writes_2_63_only_for_a_float_witness :
  mrb_type (mrb_float_value 4890909195324358656) = MRB_TT_FLOAT.
Proof.
  apply (dump_writes_2_63_only_for_a_float
           (sample_platform (fun _ => sr_err EMPTY)
              (fun _ => "9223372036854775808"%string))
           (mrb_float_value 4890909195324358656)).
  reflexivity.
Defined.

(** With a host whose number helper turns an out-of-range [uint64_t]
    into a big integer, 2^63 parses to that big integer and is dumped as
    a JSON string, between quotes. *)
Lemma dump_of_parsed_2_63_is_quoted :
  convert_element plain_platform false (dom_UINT64 (2 ^ 63))
  = Ok (mrb_bigint_value (2 ^ 63))
  /\ mrb_json_dump plain_platform (mrb_bigint_value (2 ^ 63))
  = Ok (quote ++ "9223372036854775808" ++ quote)%string.
Proof. split; reflexivity. Qed.

Lemma dump_stringifies_other_types_witness :
  mrb_json_dump plain_platform (mrb_obj_value TT_RANGE 7)
  = Ok (quote ++ "#<Object>" ++ quote)%string.
Proof.
  exact (proj1 (proj2 (dump_stringifies_other_types plain_platform
                         (mrb_obj_value TT_RANGE 7)
                         ltac:(simpl; intuition discriminate))
                  "#<Object>"%string eq_refl)).
Defined.

(** ** The round trip *)

Lemma comma_joined_cons (part : list builder_call)
  (rest : list (list builder_call)) :
  comma_joined (part :: rest)
  = part ++ flat_map (fun q => append_comma :: q) rest.
Proof.
  revert part. induction rest as [| q rest IH]; intros part.
  - simpl. rewrite app_nil_r. reflexivity.
  - change (comma_joined (part :: q :: rest))
      with (part ++ append_comma :: comma_joined (q :: rest)).
    rewrite IH. reflexivity.
Qed.

Lemma mrb_hash_set_fresh (hash : list (mrb_value * mrb_value))
  (key val : mrb_value) :
  (forall k, In k (map fst hash) -> mrb_eql k key = false) ->
  mrb_hash_set hash key val = hash ++ [(key, val)].
Proof.
  induction hash as [| [k v] rest IH]; intros Hfresh; simpl.
  - reflexivity.
  - rewrite (Hfresh k) by (left; reflexivity).
    rewrite IH; [reflexivity |].
    intros k' Hin. apply Hfresh. right. exact Hin.
Qed.

Lemma unique_keys_app_cons (before : list mrb_value) (k : mrb_value)
  (after : list mrb_value) :
  unique_keys (before ++ k :: after) = true ->
  forall k', In k' before -> mrb_eql k' k = false.
Proof.
  induction before as [| b before IH]; simpl; intros H k' Hin.
  - contradiction.
  - apply andb_prop in H. destruct H as [Hb Hrest].
    destruct Hin as [-> | Hin].
    + apply negb_true_iff in Hb.
      destruct (mrb_eql k' k) eqn:Heq; [| reflexivity].
      assert (existsb (mrb_eql k') (before ++ k :: after) = true).
      { apply existsb_exists. exists k. split; [| exact Heq].
        apply in_or_app. right. left. reflexivity. }
      congruence.
    + apply IH; assumption.
Qed.

Section RoundTrip.
Variable P : Platform.
Hypothesis Hhost : host_contract P.

Lemma json_encode_writes_dom_of (v : mrb_value) :
  is_json_value v = true ->
  forall b, json_encode P v b = Ok (b ++ builder_calls_of (dom_of v)).
Proof.
  destruct Hhost as [_ [_ Hstr]].
  induction v as [v Hv | items IH | entries IH] using mrb_value_nested_ind.
  - intros Hj b. destruct v; try contradiction; try discriminate Hj;
      simpl; try reflexivity.
    unfold json_encode_integer. rewrite to_mrb_int_id; [reflexivity |].
    simpl in Hj. apply andb_prop in Hj. lia.
  - intros Hj b. simpl in Hj.
    assert (Hloop : forall l,
               Forall (fun v => is_json_value v = true ->
                         forall b, json_encode P v b
                                   = Ok (b ++ builder_calls_of (dom_of v))) l ->
               forallb is_json_value l = true ->
               forall c,
                 encode_from_second (json_encode P) l c
                 = Ok (c ++ flat_map (fun q => append_comma :: q)
                                (map builder_calls_of (map dom_of l)))).
    { induction l as [| x l IHl]; intros Hall Hl c; simpl.
      - rewrite app_nil_r. reflexivity.
      - inversion Hall as [| ? ? Hx Hrest]; subst.
        simpl in Hl. apply andb_prop in Hl. destruct Hl as [Hjx Hjl].
        rewrite (Hx Hjx). simpl. rewrite (IHl Hrest Hjl).
        rewrite <- !app_assoc. reflexivity. }
    destruct items as [| item0 rest]; simpl.
    + rewrite <- app_assoc. reflexivity.
    + inversion IH as [| ? ? H0 Hrest]; subst.
      simpl in Hj. apply andb_prop in Hj. destruct Hj as [Hj0 Hjr].
      rewrite (H0 Hj0). simpl. rewrite (Hloop rest Hrest Hjr). simpl.
      rewrite comma_joined_cons.
      rewrite <- !app_assoc. reflexivity.
  - intros Hj b. simpl in Hj. apply andb_prop in Hj. destruct Hj as [Hj _].
    set (field := fun kv : string * dom_element =>
                    escape_and_append_with_quotes (fst kv) :: append_colon ::
                    builder_calls_of (snd kv)).
    set (pair := fun kv : mrb_value * mrb_value =>
                   (key_text (fst kv), dom_of (snd kv))).
    assert (Hloop : forall l,
               Forall (fun kv => is_json_value (snd kv) = true ->
                         forall b, json_encode P (snd kv) b
                                   = Ok (b ++ builder_calls_of (dom_of (snd kv)))) l ->
               forallb (fun kv => is_string_key (fst kv) && is_json_value (snd kv)) l
               = true ->
               forall c,
                 dump_hash_each P (json_encode P) l false c
                 = Ok (c ++ flat_map (fun q => append_comma :: q)
                                (map field (map pair l)))).
    { induction l as [| [k x] l IHl]; intros Hall Hl c; simpl.
      - rewrite app_nil_r. reflexivity.
      - inversion Hall as [| ? ? Hx Hrest]; subst. simpl in Hx.
        simpl in Hl. apply andb_prop in Hl. destruct Hl as [Hkx Hjl].
        apply andb_prop in Hkx. destruct Hkx as [Hk Hjx].
        destruct k; try discriminate Hk. rewrite Hstr. simpl.
        unfold json_encode_string. rewrite (Hx Hjx). simpl.
        rewrite (IHl Hrest Hjl). rewrite <- !app_assoc. reflexivity. }
    destruct entries as [| [k x] rest]; simpl.
    + rewrite <- app_assoc. reflexivity.
    + inversion IH as [| ? ? Hx Hrest]; subst. simpl in Hx.
      simpl in Hj. apply andb_prop in Hj. destruct Hj as [Hkx Hjl].
      apply andb_prop in Hkx. destruct Hkx as [Hk Hjx].
      destruct k; try discriminate Hk. rewrite Hstr. simpl.
      unfold json_encode_string. rewrite (Hx Hjx). simpl.
      rewrite (Hloop rest Hrest Hjl). simpl.
      fold pair. fold field. rewrite comma_joined_cons.
      simpl. rewrite <- !app_assoc. reflexivity.
Qed.

Lemma convert_element_of_dom_of (v : mrb_value) :
  is_json_value v = true ->
  convert_element P false (dom_of v) = Ok v.
Proof.
  destruct Hhost as [Hint [Hdbl _]].
  induction v as [v Hv | items IH | entries IH] using mrb_value_nested_ind.
  - intros Hj. destruct v; try contradiction; try discriminate Hj;
      simpl; try reflexivity.
    + apply Hdbl.
    + apply Hint. simpl in Hj. apply andb_prop in Hj. lia.
  - intros Hj. simpl in Hj. simpl.
    assert (Hloop : forall l,
               Forall (fun v => is_json_value v = true ->
                         convert_element P false (dom_of v) = Ok v) l ->
               forallb is_json_value l = true ->
               forall ary,
                 convert_array_loop (convert_element P false) (map dom_of l) ary
                 = Ok (mrb_ary_value (ary ++ l))).
    { induction l as [| x l IHl]; intros Hall Hl ary; simpl.
      - rewrite app_nil_r. reflexivity.
      - inversion Hall as [| ? ? Hx Hrest]; subst.
        simpl in Hl. apply andb_prop in Hl. destruct Hl as [Hjx Hjl].
        rewrite (Hx Hjx). simpl. rewrite (IHl Hrest Hjl).
        rewrite <- app_assoc. reflexivity. }
    apply (Hloop items IH Hj []).
  - intros Hj. simpl in Hj. apply andb_prop in Hj. destruct Hj as [Hj Huniq].
    simpl.
    assert (Hloop : forall l,
               Forall (fun kv => is_json_value (snd kv) = true ->
                         convert_element P false (dom_of (snd kv)) = Ok (snd kv)) l ->
               forallb (fun kv => is_string_key (fst kv) && is_json_value (snd kv)) l
               = true ->
               forall hash,
                 unique_keys (map fst hash ++ map fst l) = true ->
                 convert_object_loop (convert_element P false) convert_key_as_str
                   (map (fun kv => (key_text (fst kv), dom_of (snd kv))) l) hash
                 = Ok (mrb_hash_value (hash ++ l))).
    { induction l as [| [k x] l IHl]; intros Hall Hl hash Hu; simpl.
      - rewrite app_nil_r. reflexivity.
      - inversion Hall as [| ? ? Hx Hrest]; subst. simpl in Hx.
        simpl in Hl. apply andb_prop in Hl. destruct Hl as [Hkx Hjl].
        apply andb_prop in Hkx. destruct Hkx as [Hk Hjx].
        destruct k; try discriminate Hk. simpl.
        rewrite (Hx Hjx). simpl. unfold convert_key_as_str.
        rewrite mrb_hash_set_fresh
          by (apply (unique_keys_app_cons _ _ (map fst l)); exact Hu).
        rewrite (IHl Hrest Hjl).
        + rewrite <- app_assoc. reflexivity.
        + rewrite map_app. simpl. rewrite <- app_assoc. exact Hu. }
    apply (Hloop entries IH Hj []). exact Huniq.
Qed.

Lemma safe_view_returns (cfg : build_config) (str : RString) :
  0 <= RSTRING_LEN str <= MRB_INT_MAX ->
  exists r, simdjson_safe_view_from_mrb_string cfg str = Ok r.
Proof.
  intros Hlen. unfold simdjson_safe_view_from_mrb_string.
  destruct (zero_copy_parsing cfg && _); [eexists; reflexivity |].
  destruct (mrb_frozen_p str); [eexists; reflexivity |].
  unfold MRB_INT_MAX in Hlen.
  rewrite wrap64_small by lia.
  destruct (Z.ltb_spec (SIZE_MAX - SIMDJSON_PADDING) (RSTRING_LEN str)) as [H | H].
  - unfold SIZE_MAX, SIMDJSON_PADDING in H. lia.
  - eexists; reflexivity.
Qed.

(** C1.  Let V be built from nil, booleans, 64-bit integers, floats,
    strings, arrays and string-keyed hashes, to any depth.  If [dump V]
    returns a text, then [parse] of a host string holding that text
    returns V.  The scanning engine and the number helpers are not part
    of the file, so the theorem takes what it needs of them as
    hypotheses: the helper returns in-range integers and doubles as
    they are ([host_contract], the pinned number rules), and the
    engine's parser reads the text its builder wrote for V's tree back
    as that tree ([engine_reads_back]). *)
Theorem parse_dump_round_trip (cfg : build_config) (V : mrb_value)
  (text : string) (str : RString) :
  is_json_value V = true ->
  engine_reads_back P (dom_of V) ->
  0 <= RSTRING_LEN str <= MRB_INT_MAX ->
  mrb_json_dump P V = Ok text ->
  mrb_json_parse P cfg str text false = Ok V.
Proof.
  intros Hj Hengine Hlen Hdump.
  unfold mrb_json_dump in Hdump.
  rewrite (json_encode_writes_dom_of V Hj []) in Hdump. simpl in Hdump.
  destruct (validate_unicode P _); [| discriminate].
  inversion Hdump as [Htext].
  unfold mrb_json_parse.
  destruct (safe_view_returns cfg str Hlen) as [r ->]. simpl.
  unfold engine_reads_back in Hengine. rewrite Hengine.
  apply convert_element_of_dom_of. exact Hj.
Qed.
End RoundTrip.

Lemma parse_dump_round_trip_witness :
  mrb_json_dump sample_reader sample_value = Ok sample_text
  /\ mrb_json_parse sample_reader
       (mkConfig false 4096 true (fun ptr _ => ptr))
       (mkRString 8192 (Z.of_nat (String.length sample_text)) 64 false)
       sample_text false
     = Ok sample_value.
Proof.
  split; [reflexivity |].
  apply (parse_dump_round_trip sample_reader).
  - repeat split; intros; reflexivity.
  - reflexivity.
  - reflexivity.
  - vm_compute. split; discriminate.
  - reflexivity.
Defined.

(* ===================================================================== *)
(** * Part III.  Further properties of the code                          *)
(* ===================================================================== *)

(** ** BufferManager *)



(** X2.  A string that is already frozen is handed back exactly as it
    came by both view builders, with a view and without an error: it is
    never resized, moved or otherwise written to. *)
Theorem frozen_string_is_left_untouched (cfg : build_config) (str : RString) :
  mrb_frozen_p str = true ->
  exists v1 v2,
    simdjson_safe_view_from_mrb_string cfg str = Ok (str, v1)
    /\ make_padded_string_view_from_ruby_str cfg str = Ok (str, v2).
Proof.
  intros Hf.
  unfold simdjson_safe_view_from_mrb_string,
    make_padded_string_view_from_ruby_str.
  destruct str as [ptr len capa frozen]. simpl in Hf. subst frozen.
  unfold mrb_obj_freeze. simpl.
  destruct (zero_copy_parsing cfg && _); eexists; eexists; split; reflexivity.
Qed.

Lemma frozen_string_is_left_untouched_witness :
  exists v1 v2,
    simdjson_safe_view_from_mrb_string
      (mkConfig false 4096 true (fun ptr _ => ptr)) (mkRString 8092 100 100 true)
    = Ok (mkRString 8092 100 100 true, v1)
    /\ make_padded_string_view_from_ruby_str
         (mkConfig false 4096 true (fun ptr _ => ptr)) (mkRString 8092 100 100 true)
       = Ok (mkRString 8092 100 100 true, v2).
Proof.
  exact (frozen_string_is_left_untouched
           (mkConfig false 4096 true (fun ptr _ => ptr))
           (mkRString 8092 100 100 true) eq_refl).
Defined.





(** ** LazyDocument *)

(** X5.  A navigation call on a document whose cursor is alive never
    re-runs [iterate]: it goes straight to its body, and the engine sees
    the call's one document operation and nothing else. *)
Theorem live_document_is_not_reiterated (P : Platform) (E : OnDemand)
  (call : navigation_call) (self : Document E) :
  is_alive E (cpp_doc self) = true ->
  navigate P E call self = navigate_body P E call self
  /\ engine_calls (snd (navigate P E call self))
     = engine_calls self ++
       match document_op P call with
       | Ok op => [op]
       | _ => []
       end.
Proof.
  intros Halive.
  assert (H : navigate P E call self = navigate_body P E call self).
  { rewrite navigate_after_doc_get. unfold after_doc_get.
    rewrite (doc_get_alive P E self Halive). reflexivity. }
  split; [exact H |]. rewrite H. apply navigate_body_calls.
Qed.

Lemma live_document_is_not_reiterated_witness :
  let answers :=
    mkScript true (fun _ => sr_ok ov_null) (fun _ => sr_ok [])
      (sr_err INCORRECT_TYPE) (sr_err INCORRECT_TYPE) in
  let E := scripted_engine (sr_err PARSER_IN_USE) in
  let self := scripted_document (sr_err PARSER_IN_USE) answers in
  navigate plain_platform E (nav_find_field "a") self
  = navigate_body plain_platform E (nav_find_field "a") self
  /\ engine_calls (snd (navigate plain_platform E (nav_find_field "a") self))
     = [call_lookup (by_find_field "a")].
Proof.
  intros answers E self.
  exact (live_document_is_not_reiterated plain_platform E
           (nav_find_field "a") self eq_refl).
Defined.




(** X7.  [fetch] differs from the plain accessors only on a lookup
    miss.  Whenever the lookup does not miss -- it hits, the engine
    fails otherwise, or rehydration fails -- [fetch(key)] does what
    [doc[key]] does and [fetch(index)] what [at(index)] does, whatever
    default and block were passed: neither is used.  (A String key
    converts to itself in the host.) *)
Theorem fetch_differs_from_plain_lookup_only_on_a_miss (P : Platform)
  (E : OnDemand) (default_val : option mrb_value) (block : mrb_block)
  (self : Document E) :
  (forall key,
      mrb_obj_as_string P (mrb_str_value key) = Ok key ->
      lookup_misses P E self (by_key key) = false ->
      mrb_json_doc_fetch P E (mrb_str_value key) default_val block self
      = mrb_json_doc_aref P E (mrb_str_value key) self)
  /\ (forall index,
      lookup_misses P E self (by_index (wrap64 index)) = false ->
      mrb_json_doc_fetch P E (mrb_int_value index) default_val block self
      = mrb_json_doc_at P E index self).
Proof.
  assert (G : forall l nf k self1,
             match fst (doc_lookup E (cpp_doc self1) l) with
             | sr_ok _ => false
             | sr_err code => is_lookup_miss code
             end = false ->
             fetch_with P E l nf k default_val block self1
             = value_or_nil P E l self1).
  { intros l nf k self1 H. unfold fetch_with, value_or_nil, engine_lookup.
    simpl. destruct (fst (doc_lookup E (cpp_doc self1) l)) as [val | code];
      [reflexivity | rewrite H; reflexivity]. }
  unfold lookup_misses, mrb_json_doc_fetch, mrb_json_doc_aref, mrb_json_doc_at,
    after_doc_get.
  simpl get_args_S. cbv iota.
  split.
  - intros key Hkey Hmiss.
    destruct (mrb_json_doc_get P E self) as [[u | e | c] self1]; try reflexivity.
    unfold fetch_body. rewrite Hkey. apply G. exact Hmiss.
  - intros index Hmiss.
    destruct (mrb_json_doc_get P E self) as [[u | e | c] self1]; try reflexivity.
    unfold fetch_body. apply G. exact Hmiss.
Qed.

Lemma fetch_differs_from_plain_lookup_only_on_a_miss_witness :
  let ten := ov_number (sr_ok (signed_integer 10)) "10" in
  let answers :=
    mkScript true
      (fun l => match l with
                | by_key _ => sr_ok ten
                | _ => sr_err TAPE_ERROR
                end)
      (fun _ => sr_ok []) (sr_err INCORRECT_TYPE) (sr_err INCORRECT_TYPE) in
  let E := scripted_engine (sr_ok answers) in
  let self := scripted_document (sr_ok answers) answers in
  mrb_json_doc_fetch plain_platform E (mrb_str_value "a") (Some mrb_nil_value)
    None self
  = mrb_json_doc_aref plain_platform E (mrb_str_value "a") self
  /\ mrb_json_doc_fetch plain_platform E (mrb_int_value 3) (Some mrb_nil_value)
       None self
     = mrb_json_doc_at plain_platform E 3 self.
Proof.
  intros ten answers E self.
  pose proof (fetch_differs_from_plain_lookup_only_on_a_miss plain_platform E
                (Some mrb_nil_value) None self) as [Hkey Hindex].
  split.
  - exact (Hkey "a"%string eq_refl eq_refl).
  - exact (Hindex 3 eq_refl).
Defined.

Lemma object_each_collect_as_convert (P : Platform)
  (fields : list ondemand_field) :
  forallb field_answered fields = true ->
  forall hash,
    object_each_collect P fields hash
    = convert_object_fields P (convert_ondemand_value_to_mrb P) fields hash.
Proof.
  induction fields as [| [key value] rest IH]; intros Hall hash; simpl.
  - reflexivity.
  - simpl in Hall. apply andb_prop in Hall. destruct Hall as [Hf Hrest].
    unfold field_answered, field_key_value in *. simpl in *.
    destruct key as [k | c]; [| discriminate Hf].
    destruct value as [v | c]; [| discriminate Hf].
    destruct (convert_ondemand_value_to_mrb P v) as [val | e | c];
      simpl; try reflexivity.
    apply IH. exact Hrest.
Qed.

(** X8.  Enumeration without a visitor returns what materializing the
    same container as a nested value returns: [array_each] when the
    element count is answered, [object_each] when every field is answered
    with its key and value. *)
Theorem each_without_visitor_materializes (P : Platform) (E : OnDemand)
  (self : Document E) :
  (forall array n,
      fst (doc_get_array E (cpp_doc self)) = sr_ok array ->
      count_elements array = sr_ok n ->
      fst (array_each_body P E None self)
      = convert_ondemand_value_to_mrb P
          (ov_array (sr_ok false) (array_items array)))
  /\ (forall object,
      fst (doc_get_object E (cpp_doc self)) = sr_ok object ->
      forallb field_answered object = true ->
      fst (object_each_body P E None self)
      = convert_ondemand_value_to_mrb P (ov_object (sr_ok false) object)).
Proof.
  split.
  - intros array n Ha Hn. unfold array_each_body. rewrite Ha, Hn. reflexivity.
  - intros object Ho Hall. unfold object_each_body. rewrite Ho. simpl.
    apply object_each_collect_as_convert. exact Hall.
Qed.

Lemma each_without_visitor_materializes_witness :
  let one := ov_number (sr_ok (signed_integer 1)) "1" in
  let two := ov_string (sr_ok "two"%string) in
  let object := [(sr_ok "a"%string, sr_ok one); (sr_ok "b"%string, sr_ok two);
                 (sr_ok "a"%string, sr_ok two)] in
  let answers :=
    mkScript true (fun _ => sr_err INCORRECT_TYPE) (fun _ => sr_err INCORRECT_TYPE)
      (sr_err INCORRECT_TYPE) (sr_ok object) in
  let E := scripted_engine (sr_ok answers) in
  let self := scripted_document (sr_ok answers) answers in
  fst (object_each_body plain_platform E None self)
  = convert_ondemand_value_to_mrb plain_platform (ov_object (sr_ok false) object).
Proof.
  intros one two object answers E self.
  exact (proj2 (each_without_visitor_materializes plain_platform E self)
           object eq_refl eq_refl).
Defined.

Lemma doc_get_keeps_identity (P : Platform) (E : OnDemand) (self : Document E) :
  self_value (snd (mrb_json_doc_get P E self)) = self_value self.
Proof.
  unfold mrb_json_doc_get.
  destruct (is_alive E (cpp_doc self)); [reflexivity |]. simpl.
  destruct (iterate E (iv_parser self) (iv_view self)); reflexivity.
Qed.

(** X9.  Called with a visitor, [array_each] and [object_each] return
    the document itself whenever they return, and so does
    [at_path_with_wildcard] unless the path misses (then nil): what the
    visitor returns is discarded. *)
Theorem each_with_visitor_returns_the_document (P : Platform) (E : OnDemand)
  (yield : list mrb_value -> mrb_result mrb_value) (path_val : string)
  (self : Document E) (v : mrb_value) :
  (fst (mrb_json_doc_array_each P E (Some yield) self) = Ok v ->
   v = self_value self)
  /\ (fst (mrb_json_doc_object_each P E (Some yield) self) = Ok v ->
      v = self_value self)
  /\ (fst (mrb_json_doc_at_path_with_wildcard P E path_val (Some yield) self)
      = Ok v ->
      v = self_value self \/ v = mrb_nil_value).
Proof.
  unfold mrb_json_doc_at_path_with_wildcard, mrb_json_doc_array_each,
    mrb_json_doc_object_each, after_doc_get.
  pose proof (doc_get_keeps_identity P E self) as Hid.
  destruct (mrb_json_doc_get P E self) as [[u | e | c] self1]; simpl in Hid;
    try (repeat split; intros H; discriminate H).
  unfold at_path_with_wildcard_body, array_each_body, object_each_body.
  split; [| split]; intros H.
  - destruct (fst (doc_get_array E (cpp_doc self1))) as [array | code];
      simpl in H; [| discriminate H].
    destruct (array_each_yield P yield (array_items array)); simpl in H;
      inversion H. exact Hid.
  - destruct (fst (doc_get_object E (cpp_doc self1))) as [object | code];
      simpl in H; [| discriminate H].
    destruct (object_each_yield P yield object); simpl in H;
      inversion H. exact Hid.
  - destruct (fst (doc_at_path_with_wildcard E (cpp_doc self1) path_val))
      as [values | code]; simpl in H.
    + destruct (yield_each P yield values); simpl in H; inversion H.
      left. exact Hid.
    + destruct (is_lookup_miss code); simpl in H; inversion H.
      right. reflexivity.
Qed.

Lemma each_with_visitor_returns_the_document_witness :
  let one := ov_number (sr_ok (signed_integer 1)) "1" in
  let answers :=
    mkScript true (fun _ => sr_err INCORRECT_TYPE) (fun _ => sr_ok [one])
      (sr_ok (mkArray (sr_ok 2) [sr_ok one; sr_ok one])) (sr_err INCORRECT_TYPE) in
  let E := scripted_engine (sr_ok answers) in
  let self := scripted_document (sr_ok answers) answers in
  mrb_obj_value TT_CDATA 1 = self_value self.
Proof.
  intros one answers E self.
  exact (proj1 (each_with_visitor_returns_the_document plain_platform E
                  (fun args => Ok (mrb_ary_value args)) "a.*" self
                  (mrb_obj_value TT_CDATA 1)) eq_refl).
Defined.

Lemma convert_array_items_complete (P : Platform)
  (items : list (simdjson_result ondemand_value)) :
  forall (ary : list mrb_value) (out : mrb_value),
    convert_array_items (convert_ondemand_value_to_mrb P) items ary = Ok out ->
    exists xs,
      out = mrb_ary_value (ary ++ xs) /\
      Forall2 (fun item x =>
                 exists val, item = sr_ok val /\
                             convert_ondemand_value_to_mrb P val = Ok x)
        items xs.
Proof.
  induction items as [| item rest IH]; intros ary out H; simpl in H.
  - inversion H. exists []. rewrite app_nil_r. split; constructor.
  - destruct item as [val | c]; [| discriminate H].
    destruct (convert_ondemand_value_to_mrb P val) as [x | e | c] eqn:Hv;
      simpl in H; try discriminate H.
    destruct (IH _ _ H) as [xs [Hout Hall]].
    exists (x :: xs). rewrite <- app_assoc in Hout. split; [exact Hout |].
    constructor; [exists val; split; [reflexivity | exact Hv] | exact Hall].
Qed.

Lemma convert_object_fields_complete (P : Platform)
  (fields : list ondemand_field) :
  forall (hash : list (mrb_value * mrb_value)) (out : mrb_value),
    convert_object_fields P (convert_ondemand_value_to_mrb P) fields hash = Ok out ->
    Forall (fun f =>
              exists k val x, f = (sr_ok k, sr_ok val) /\
                              convert_ondemand_value_to_mrb P val = Ok x)
      fields.
Proof.
  induction fields as [| [key value] rest IH]; intros hash out H; simpl in H.
  - constructor.
  - destruct key as [k | c]; [| discriminate H].
    destruct value as [val | c]; [| discriminate H].
    destruct (convert_ondemand_value_to_mrb P val) as [x | e | c] eqn:Hv;
      simpl in H; try discriminate H.
    constructor; [| exact (IH _ _ H)].
    exists k, val, x. split; [reflexivity | exact Hv].
Qed.

(** X10.  The on-demand materializer returns no partial structure.  A
    non-empty array is returned only with one converted element per
    item, in document order; an object only when every field was
    answered with its key and value and every value converted. *)
Theorem ondemand_materializer_is_all_or_nothing (P : Platform)
  (out : mrb_value) :
  (forall items,
      convert_ondemand_value_to_mrb P (ov_array (sr_ok false) items) = Ok out ->
      exists xs,
        out = mrb_ary_value xs /\
        Forall2 (fun item x =>
                   exists val, item = sr_ok val /\
                               convert_ondemand_value_to_mrb P val = Ok x)
          items xs)
  /\ (forall fields,
      convert_ondemand_value_to_mrb P (ov_object (sr_ok false) fields) = Ok out ->
      exists entries,
        out = mrb_hash_value entries /\
        Forall (fun f =>
                  exists k val x, f = (sr_ok k, sr_ok val) /\
                                  convert_ondemand_value_to_mrb P val = Ok x)
          fields).
Proof.
  split.
  - intros items H. simpl in H.
    destruct (convert_array_items_complete P items [] out H) as [xs [H1 H2]].
    exists xs. split; assumption.
  - intros fields H. simpl in H.
    pose proof (convert_object_fields_complete P fields [] out H) as Hall.
    assert (Hh : forall fs hash,
               convert_object_fields P (convert_ondemand_value_to_mrb P) fs hash
               = Ok out -> exists entries, out = mrb_hash_value entries).
    { induction fs as [| [key value] rest IH]; intros hash Hc; simpl in Hc.
      - inversion Hc. eexists; reflexivity.
      - destruct key as [k | c]; [| discriminate Hc].
        destruct value as [val | c]; [| discriminate Hc].
        destruct (convert_ondemand_value_to_mrb P val); simpl in Hc;
          try discriminate Hc.
        exact (IH _ Hc). }
    destruct (Hh fields [] H) as [entries He].
    exists entries. split; assumption.
Qed.

Lemma ondemand_materializer_is_all_or_nothing_witness :
  let one := ov_number (sr_ok (signed_integer 1)) "1" in
  let items := [sr_ok one; sr_ok ov_null] in
  exists xs,
    mrb_ary_value [mrb_int_value 1; mrb_nil_value] = mrb_ary_value xs /\
    Forall2 (fun item x =>
               exists val, item = sr_ok val /\
                           convert_ondemand_value_to_mrb plain_platform val = Ok x)
      items xs.
Proof.
  intros one items.
  exact (proj1 (ondemand_materializer_is_all_or_nothing plain_platform
                  (mrb_ary_value [mrb_int_value 1; mrb_nil_value]))
           items eq_refl).
Defined.

(** ** Encoder *)

Section EncoderGrammar.
Variable P : Platform.

Lemma json_encode_as_calls (v : mrb_value) :
  forall b,
    json_encode P v b = (calls <- json_calls P v ;; Ok (b ++ calls)).
Proof.
  induction v as [v Hv | items IH | entries IH] using mrb_value_nested_ind.
  - intros b. destruct v; try contradiction; simpl; try reflexivity;
      destruct (mrb_obj_as_string P _); reflexivity.
  - intros b.
    assert (Hloop : forall l,
               Forall (fun v => forall b,
                         json_encode P v b
                         = (calls <- json_calls P v ;; Ok (b ++ calls))) l ->
               forall c,
                 encode_from_second (json_encode P) l c
                 = (parts <- map_result (json_calls P) l ;;
                    Ok (c ++ flat_map (fun q => append_comma :: q) parts))).
    { induction l as [| x l IHl]; intros Hall c; simpl.
      - rewrite app_nil_r. reflexivity.
      - inversion Hall as [| ? ? Hx Hrest]; subst.
        rewrite Hx. destruct (json_calls P x) as [e | |]; simpl;
          try reflexivity.
        rewrite (IHl Hrest).
        destruct (map_result (json_calls P) l); simpl; try reflexivity.
        rewrite <- !app_assoc. reflexivity. }
    destruct items as [| item0 rest].
    + simpl. change (comma_joined []) with (@nil builder_call).
      rewrite <- app_assoc. reflexivity.
    + inversion IH as [| ? ? H0 Hrest]; subst.
      simpl. rewrite H0.
      destruct (json_calls P item0) as [e0 | |]; simpl; try reflexivity.
      rewrite (Hloop rest Hrest).
      destruct (map_result (json_calls P) rest) as [parts | |]; simpl;
        try reflexivity.
      rewrite comma_joined_cons. rewrite <- !app_assoc. reflexivity.
  - intros b.
    set (field := fun kv : mrb_value * mrb_value =>
                    key_str <- mrb_obj_as_string P (fst kv) ;;
                    val <- json_calls P (snd kv) ;;
                    Ok (escape_and_append_with_quotes key_str :: append_colon :: val)).
    assert (Hloop : forall l,
               Forall (fun kv => forall b,
                         json_encode P (snd kv) b
                         = (calls <- json_calls P (snd kv) ;; Ok (b ++ calls))) l ->
               forall c,
                 dump_hash_each P (json_encode P) l false c
                 = (parts <- map_result field l ;;
                    Ok (c ++ flat_map (fun q => append_comma :: q) parts))).
    { induction l as [| [k x] l IHl]; intros Hall c; simpl.
      - rewrite app_nil_r. reflexivity.
      - inversion Hall as [| ? ? Hx Hrest]; subst. simpl in Hx.
        unfold field at 1. simpl.
        destruct (mrb_obj_as_string P k) as [ks | |]; simpl; try reflexivity.
        unfold json_encode_string. rewrite Hx.
        destruct (json_calls P x) as [e | |]; simpl; try reflexivity.
        rewrite (IHl Hrest).
        destruct (map_result field l); simpl; try reflexivity.
        rewrite <- !app_assoc. reflexivity. }
    destruct entries as [| [k x] rest].
    + simpl. change (comma_joined []) with (@nil builder_call).
      rewrite <- app_assoc. reflexivity.
    + inversion IH as [| ? ? Hx Hrest]; subst. simpl in Hx.
      simpl. fold field.
      destruct (mrb_obj_as_string P k) as [ks | |]; simpl; try reflexivity.
      unfold json_encode_string. rewrite Hx.
      destruct (json_calls P x) as [e | |]; simpl; try reflexivity.
      rewrite (Hloop rest Hrest).
      destruct (map_result field rest) as [parts | |]; simpl; try reflexivity.
      rewrite comma_joined_cons. simpl. rewrite <- !app_assoc. reflexivity.
Qed.

(** X11.  The encoder implements the JSON grammar of [json_calls]: into
    any builder, [json_encode] appends exactly the calls of the value --
    scalars by their own call, array elements and hash entries
    comma-joined between the delimiters with no leading or trailing
    comma, every hash key converted to a string and written as one -- or
    fails with the first failing string conversion, in document order.
    [dump] returns the text of these calls if it validates as UTF-8 as a
    whole, and raises the UTF-8 error otherwise. *)
Theorem encoder_implements_the_grammar (v : mrb_value) :
  (forall builder,
      json_encode P v builder
      = (calls <- json_calls P v ;; Ok (builder ++ calls)))
  /\ mrb_json_dump P v
     = (calls <- json_calls P v ;;
        if validate_unicode P (view P calls) then Ok (view P calls)
        else Raise (Exc E_JSON_UTF8_ERROR "invalid utf-8")).
Proof.
  split; [apply json_encode_as_calls |].
  unfold mrb_json_dump. rewrite json_encode_as_calls.
  destruct (json_calls P v); reflexivity.
Qed.

End EncoderGrammar.

(** ** ValueMaterializer, eager side *)

Lemma mrb_eql_string_key (k : mrb_value) (s : string) :
  mrb_eql k (mrb_str_value s) = true -> k = mrb_str_value s.
Proof.
  destruct k; simpl; try discriminate.
  intros H. apply String.eqb_eq in H. subst. reflexivity.
Qed.

Lemma mrb_hash_get_set_same (hash : list (mrb_value * mrb_value))
  (s : string) (val : mrb_value) :
  mrb_hash_get (mrb_hash_set hash (mrb_str_value s) val) (mrb_str_value s)
  = Some val.
Proof.
  induction hash as [| [k v] rest IH]; simpl.
  - rewrite String.eqb_refl. reflexivity.
  - destruct (mrb_eql k (mrb_str_value s)) eqn:Hk; simpl; rewrite Hk;
      [reflexivity | exact IH].
Qed.

Lemma mrb_hash_get_set_other (hash : list (mrb_value * mrb_value))
  (s t : string) (val : mrb_value) :
  String.eqb s t = false ->
  mrb_hash_get (mrb_hash_set hash (mrb_str_value s) val) (mrb_str_value t)
  = mrb_hash_get hash (mrb_str_value t).
Proof.
  intros Hst. induction hash as [| [k v] rest IH]; simpl.
  - rewrite Hst. reflexivity.
  - destruct (mrb_eql k (mrb_str_value s)) eqn:Hk; simpl.
    + apply mrb_eql_string_key in Hk. subst k. simpl. rewrite Hst. reflexivity.
    + rewrite IH. reflexivity.
Qed.

Lemma mrb_hash_set_keys (hash : list (mrb_value * mrb_value))
  (key val : mrb_value) :
  map fst (mrb_hash_set hash key val)
  = if existsb (fun k => mrb_eql k key) (map fst hash) then map fst hash
    else map fst hash ++ [key].
Proof.
  induction hash as [| [k v] rest IH]; simpl.
  - reflexivity.
  - destruct (mrb_eql k key); simpl; [reflexivity |].
    rewrite IH. destruct (existsb _ (map fst rest)); reflexivity.
Qed.

Lemma unique_keys_snoc (keys : list mrb_value) (key : mrb_value) :
  unique_keys keys = true ->
  existsb (fun k => mrb_eql k key) keys = false ->
  unique_keys (keys ++ [key]) = true.
Proof.
  induction keys as [| k rest IH]; simpl; intros Hu Hfresh.
  - reflexivity.
  - apply andb_prop in Hu. destruct Hu as [Hk Hrest].
    apply orb_false_elim in Hfresh. destruct Hfresh as [Hkk Hfr].
    rewrite (IH Hrest Hfr), andb_true_r.
    rewrite existsb_app. simpl. rewrite Hkk.
    apply negb_true_iff in Hk. rewrite Hk. reflexivity.
Qed.

Lemma mrb_hash_set_unique (hash : list (mrb_value * mrb_value))
  (key val : mrb_value) :
  unique_keys (map fst hash) = true ->
  unique_keys (map fst (mrb_hash_set hash key val)) = true.
Proof.
  intros Hu. rewrite mrb_hash_set_keys.
  destruct (existsb _ (map fst hash)) eqn:He; [exact Hu |].
  apply unique_keys_snoc; assumption.
Qed.

Section EagerFacts.
Variable P : Platform.

Lemma convert_array_loop_as_map (symbolize_names : bool)
  (items : list dom_element) :
  forall ary,
    convert_array_loop (convert_element P symbolize_names) items ary
    = (xs <- map_result (convert_element P symbolize_names) items ;;
       Ok (mrb_ary_value (ary ++ xs))).
Proof.
  induction items as [| item rest IH]; intros ary; simpl.
  - rewrite app_nil_r. reflexivity.
  - destruct (convert_element P symbolize_names item) as [x | |]; simpl;
      try reflexivity.
    rewrite IH.
    destruct (map_result (convert_element P symbolize_names) rest); simpl;
      try reflexivity.
    rewrite <- app_assoc. reflexivity.
Qed.

Lemma convert_object_loop_as_map (symbolize_names : bool)
  (convert_key : string -> mrb_value) (fields : list (string * dom_element)) :
  forall hash,
    convert_object_loop (convert_element P symbolize_names) convert_key fields hash
    = (vals <- map_result (fun kv => convert_element P symbolize_names (snd kv))
                 fields ;;
       Ok (mrb_hash_value
             (fold_left (fun h kv => mrb_hash_set h (fst kv) (snd kv))
                (combine (map (fun kv => convert_key (fst kv)) fields) vals)
                hash))).
Proof.
  induction fields as [| [k el] rest IH]; intros hash; simpl.
  - reflexivity.
  - destruct (convert_element P symbolize_names el) as [x | |]; simpl;
      try reflexivity.
    rewrite IH.
    destruct (map_result _ rest); reflexivity.
Qed.

(** X13.  The eager converter returns no partial structure.  An array
    converts to its elements' conversions in document order, an object
    to the hash built by setting each converted value under its
    converted key in document order; the first element or field value
    that fails is the failure of the whole conversion. *)
Theorem eager_converter_is_all_or_nothing (symbolize_names : bool) :
  (forall items,
      convert_element P symbolize_names (dom_ARRAY items)
      = (xs <- map_result (convert_element P symbolize_names) items ;;
         Ok (mrb_ary_value xs)))
  /\ (forall fields,
      convert_element P symbolize_names (dom_OBJECT fields)
      = (vals <- map_result (fun kv => convert_element P symbolize_names (snd kv))
                   fields ;;
         Ok (mrb_hash_value
               (hash_of_pairs
                  (combine
                     (map (fun kv =>
                             if symbolize_names
                             then mrb_symbol_value (mrb_intern P (fst kv))
                             else mrb_str_value (fst kv)) fields)
                     vals))))).
Proof.
  split.
  - intros items. simpl. apply convert_array_loop_as_map.
  - intros fields. simpl. rewrite convert_object_loop_as_map.
    unfold hash_of_pairs, convert_key_as_sym, convert_key_as_str.
    destruct symbolize_names; reflexivity.
Qed.

Lemma convert_object_loop_last_wins (fields : list (string * dom_element)) :
  forall hash entries,
    convert_object_loop (convert_element P false) convert_key_as_str fields hash
    = Ok (mrb_hash_value entries) ->
    unique_keys (map fst hash) = true ->
    unique_keys (map fst entries) = true
    /\ forall k,
        match last_field k fields with
        | Some el =>
            exists x, convert_element P false el = Ok x /\
                      mrb_hash_get entries (mrb_str_value k) = Some x
        | None =>
            mrb_hash_get entries (mrb_str_value k)
            = mrb_hash_get hash (mrb_str_value k)
        end.
Proof.
  induction fields as [| [k0 el0] rest IH]; intros hash entries H Hu; simpl in H.
  - inversion H; subst. split; [exact Hu |]. intros k. reflexivity.
  - destruct (convert_element P false el0) as [x0 | |] eqn:H0; simpl in H;
      try discriminate H.
    unfold convert_key_as_str in H at 1.
    destruct (IH _ _ H (mrb_hash_set_unique hash _ x0 Hu)) as [Hu' Hget].
    split; [exact Hu' |].
    intros k. specialize (Hget k). simpl.
    destruct (last_field k rest) as [later |]; [exact Hget |].
    destruct (String.eqb k0 k) eqn:Hk.
    + apply String.eqb_eq in Hk. subst k0. exists x0. split; [exact H0 |].
      rewrite Hget. apply mrb_hash_get_set_same.
    + rewrite Hget. apply mrb_hash_get_set_other. exact Hk.
Qed.

(** X14.  A parsed object with repeated field names becomes a hash with
    unique keys in which the last field of a name wins: looking a name
    up gives the conversion of the last field so named, and a name no
    field carries is absent.  (String keys, [symbolize_names] off.) *)
Theorem parsed_object_has_unique_keys_last_field_wins
  (fields : list (string * dom_element)) (v : mrb_value) :
  convert_element P false (dom_OBJECT fields) = Ok v ->
  exists entries,
    v = mrb_hash_value entries
    /\ unique_keys (map fst entries) = true
    /\ forall k,
        match last_field k fields with
        | Some el =>
            exists x, convert_element P false el = Ok x /\
                      mrb_hash_get entries (mrb_str_value k) = Some x
        | None => mrb_hash_get entries (mrb_str_value k) = None
        end.
Proof.
  intros H. simpl in H.
  assert (Hh : exists entries, v = mrb_hash_value entries).
  { rewrite convert_object_loop_as_map in H.
    destruct (map_result _ fields); simpl in H; inversion H.
    eexists; reflexivity. }
  destruct Hh as [entries ->]. exists entries. split; [reflexivity |].
  destruct (convert_object_loop_last_wins fields [] entries H eq_refl)
    as [Hu Hget].
  split; [exact Hu |]. exact Hget.
Qed.
End EagerFacts.

Lemma parsed_object_has_unique_keys_last_field_wins_witness :
  let fields := [("a"%string, dom_INT64 1); ("b"%string, dom_BOOL true);
                 ("a"%string, dom_STRING "z")] in
  exists entries,
    mrb_hash_value [(mrb_str_value "a", mrb_str_value "z");
                    (mrb_str_value "b", mrb_true_value)]
    = mrb_hash_value entries
    /\ unique_keys (map fst entries) = true
    /\ forall k,
        match last_field k fields with
        | Some el =>
            exists x, convert_element plain_platform false el = Ok x /\
                      mrb_hash_get entries (mrb_str_value k) = Some x
        | None => mrb_hash_get entries (mrb_str_value k) = None
        end.
Proof.
  intros fields.
  exact (parsed_object_has_unique_keys_last_field_wins plain_platform fields
           (mrb_hash_value [(mrb_str_value "a", mrb_str_value "z");
                            (mrb_str_value "b", mrb_true_value)])
           eq_refl).
Defined.

(** ** ErrorTaxonomy *)

(** X15.  The taxonomy loses nothing: no two engine codes are raised as
    the same exception class (MEMALLOC alone raises the host's
    out-of-memory exception), so the code can be told from the class. *)
Theorem error_class_determines_the_code (c1 c2 : error_code) :
  simdjson_error_class c1 = simdjson_error_class c2 -> c1 = c2.
Proof.
  destruct c1; destruct c2; simpl; intros H;
    first [reflexivity | discriminate H].
Qed.

Lemma error_class_determines_the_code_witness :
  NO_SUCH_FIELD = NO_SUCH_FIELD.
Proof.
  exact (error_class_determines_the_code NO_SUCH_FIELD NO_SUCH_FIELD eq_refl).
Defined.

(** ** LazyDocument: [reiterate] *)

(** X16.  Implicit rehydration is an explicit [reiterate] followed by
    the call.  When [iterate] on the retained view and parser yields a
    live cursor, a navigation call on a dead document leaves the same
    outcome, the same document state and the same engine calls as
    [reiterate] followed by that call; and [reiterate] itself runs
    [iterate] whether or not the cursor is alive. *)
Theorem rehydration_is_reiterate_then_call (P : Platform) (E : OnDemand)
  (call : navigation_call) (self : Document E) (doc : document E) :
  iterate E (iv_parser self) (iv_view self) = sr_ok doc ->
  is_alive E doc = true ->
  engine_calls (snd (mrb_json_doc_reiterate P E self))
  = engine_calls self ++ [call_iterate]
  /\ (is_alive E (cpp_doc self) = false ->
      navigate P E call (snd (mrb_json_doc_reiterate P E self))
      = navigate P E call self).
Proof.
  intros Hi Halive.
  assert (Hre : snd (mrb_json_doc_reiterate P E self)
                = set_cpp_doc (record_call call_iterate self) doc).
  { unfold mrb_json_doc_reiterate. simpl. rewrite Hi. reflexivity. }
  rewrite Hre. split; [reflexivity |].
  intros Hdead.
  rewrite !navigate_after_doc_get. unfold after_doc_get.
  rewrite (doc_get_rehydrated P E self doc Hdead Hi).
  rewrite (doc_get_alive P E (set_cpp_doc (record_call call_iterate self) doc)
             Halive).
  reflexivity.
Qed.

Lemma rehydration_is_reiterate_then_call_witness :
  let fresh :=
    mkScript true (fun _ => sr_ok ov_null) (fun _ => sr_ok [])
      (sr_err INCORRECT_TYPE) (sr_err INCORRECT_TYPE) in
  let E := scripted_engine (sr_ok fresh) in
  let self := scripted_document (sr_ok fresh) empty_script in
  engine_calls (snd (mrb_json_doc_reiterate plain_platform E self))
  = engine_calls self ++ [call_iterate]
  /\ (is_alive E (cpp_doc self) = false ->
      navigate plain_platform E (nav_at_path "a.b")
        (snd (mrb_json_doc_reiterate plain_platform E self))
      = navigate plain_platform E (nav_at_path "a.b") self).
Proof.
  intros fresh E self.
  exact (rehydration_is_reiterate_then_call plain_platform E (nav_at_path "a.b")
           self fresh eq_refl eq_refl).
Defined.

(** ** Encoder: what [dump] can fail with *)



